(** * ABCD ADR waveform exporter: a shallow embedding and its properties

    The development follows [abcd_adr_waveform_exporter.cpp]: the packet
    decoder [read_waveform_packet], the CSV row writer [write_samples_csv],
    and the two drivers [export_single_channel] and [export_all_channels].

    Platform conventions (LP64, little endian, as for the documented
    [g++ -std=c++17] build): [size_t] is 64 bits wide, [int] and [uint32_t]
    are 32 bits wide, [memcpy] into an unsigned field reads it least
    significant byte first. *)

From stdpp Require Import base numbers list strings gmap pretty.
From Stdlib Require Import Strings.Byte.

Local Open Scope Z_scope.

(** ** Bytes and fixed-width integers *)

#[global] Instance byte_eq_decision : EqDecision byte := byte_eq_dec.

Definition byte_val (b : byte) : Z := Z.of_N (Byte.to_N b).

(** Unsigned wrap-around of [size_t] and of [unsigned int] arithmetic. *)
Definition wrap64 (z : Z) : Z := z mod 2 ^ 64.
Definition wrap32 (z : Z) : Z := z mod 2 ^ 32.

Definition INT_MIN : Z := - 2 ^ 31.
Definition INT_MAX : Z := 2 ^ 31 - 1.

(** The value of a little-endian byte sequence. *)
Fixpoint le_value (bs : list byte) : Z :=
  match bs with
  | [] => 0
  | b :: bs' => byte_val b + 256 * le_value bs'
  end.

(** [buffer.size()] *)
Definition size (buffer : list byte) : Z := Z.of_nat (length buffer).

(** [std::memcpy(&field, &buffer[pos], n)] into a zeroed unsigned field.
    [None] stands for a source range that is not inside the buffer, which
    is undefined behaviour in the program. *)
Definition memcpy_le (buffer : list byte) (pos : Z) (n : nat) : option Z :=
  if bool_decide (0 ≤ pos ∧ pos + Z.of_nat n ≤ size buffer)
  then Some (le_value (take n (drop (Z.to_nat pos) buffer)))
  else None.

(** ** Waveform packets (lines 39-45) *)

Record WaveformPacket := mkPacket {
  timestamp : Z;       (* uint64_t *)
  channel : Z;         (* uint8_t  *)
  sample_count : Z;    (* uint32_t *)
  gates_count : Z;     (* uint8_t  *)
  samples : list Z     (* std::vector<uint16_t> *)
}.

(** What a call of [read_waveform_packet] leaves behind: the returned
    [bool] with the value of the reference parameter [pos] on exit, and on
    [true] the filled packet.  On [false] the caller never reads the packet.
    [ReadOverrun] is a call that reads outside the buffer.  The resize of
    the sample vector is taken to succeed (no [std::bad_alloc]). *)
Inductive read_result :=
| ReadTrue (pos : Z) (packet : WaveformPacket)
| ReadFalse (pos : Z)
| ReadOverrun.

(** The sample loop of lines 63-66.  [src] is the part of the buffer that
    starts at [pos]; [i] counts up to [count] as in the source, and the
    two bytes of sample [i] are taken from the head of [src]. *)
Fixpoint sample_loop (count : Z) (src : list byte) (i pos : Z)
    : option (list Z * Z) :=
  if bool_decide (i < count) then
    match src with
    | b0 :: b1 :: src' =>
        match sample_loop count src' (wrap32 (i + 1)) (wrap64 (pos + 2)) with
        | Some (rest, pos') => Some (le_value [b0; b1] :: rest, pos')
        | None => None
        end
    | _ => None
    end
  else Some ([], pos).

(** Lines 68-70: drop the four trailing samples when there are that many. *)
Definition trim_padding (samples : list Z) : list Z :=
  if bool_decide (4 ≤ Z.of_nat (length samples))
  then take (length samples - 4) samples
  else samples.

(** Lines 47-73. *)
Definition read_waveform_packet (buffer : list byte) (pos : Z) : read_result :=
  if bool_decide (wrap64 (pos + 14) > size buffer) then ReadFalse pos
  else
    match memcpy_le buffer pos 8 with
    | None => ReadOverrun
    | Some ts =>
      let pos := wrap64 (pos + 8) in
      match memcpy_le buffer pos 1 with
      | None => ReadOverrun
      | Some ch =>
        let pos := wrap64 (pos + 1) in
        match memcpy_le buffer pos 4 with
        | None => ReadOverrun
        | Some count =>
          let pos := wrap64 (pos + 4) in
          match memcpy_le buffer pos 1 with
          | None => ReadOverrun
          | Some gates =>
            let pos := wrap64 (pos + 1) in
            if bool_decide (wrap64 (pos + wrap32 (count * 2)) > size buffer)
            then ReadFalse pos
            else
              match sample_loop count (drop (Z.to_nat pos) buffer) 0 pos with
              | None => ReadOverrun
              | Some (raw, pos') =>
                  ReadTrue pos' (mkPacket ts ch count gates (trim_padding raw))
              end
          end
        end
      end
    end.

(** ** [std::string] operations used by the frame scan *)

Definition bytes (s : string) : list byte := String.list_byte_of_string s.

Fixpoint starts_with (needle hay : list byte) : bool :=
  match needle, hay with
  | [], _ => true
  | _ :: _, [] => false
  | n :: needle', h :: hay' => bool_decide (n = h) && starts_with needle' hay'
  end.

(** [hay.find(needle)]: index of the first occurrence, [None] for [npos]. *)
Fixpoint find (hay needle : list byte) : option nat :=
  if starts_with needle hay then Some 0%nat
  else match hay with
       | [] => None
       | _ :: hay' => S <$> find hay' needle
       end.

(** [hay.rfind(needle)]: index of the last occurrence, [None] for [npos]. *)
Fixpoint rfind (hay needle : list byte) : option nat :=
  match hay with
  | [] => if starts_with needle [] then Some 0%nat else None
  | _ :: hay' =>
      match rfind hay' needle with
      | Some i => Some (S i)
      | None => if starts_with needle hay then Some 0%nat else None
      end
  end.

(** The exceptions the drivers can raise; none is caught anywhere in the
    program, so raising one ends the process through [std::terminate]. *)
Inductive exn := invalid_argument | out_of_range | length_error.

Definition isspace (c : byte) : bool :=
  bool_decide (c ∈ [" "; x09; x0a; x0b; x0c; x0d]%byte).

Definition digit_val (c : byte) : option Z :=
  let v := byte_val c in
  if bool_decide (48 ≤ v ≤ 57) then Some (v - 48) else None.

Fixpoint skip_space (s : list byte) : list byte :=
  match s with
  | c :: s' => if isspace c then skip_space s' else s
  | [] => []
  end.

(** Value of the longest prefix of decimal digits; [None] when it is empty. *)
Fixpoint digits (s : list byte) (acc : Z) (seen : bool) : option Z :=
  match s with
  | c :: s' =>
      match digit_val c with
      | Some d => digits s' (10 * acc + d) true
      | None => if seen then Some acc else None
      end
  | [] => if seen then Some acc else None
  end.

(** [std::stoi(s)] (base 10, no index out-parameter): leading white space,
    an optional sign, then as many digits as there are; what follows the
    digits is ignored.  It throws [invalid_argument] when there is no digit
    and [out_of_range] when the value does not fit an [int]. *)
Definition stoi (s : list byte) : exn + Z :=
  let s := skip_space s in
  let '(neg, s) :=
    match s with
    | c :: s' =>
        if bool_decide (c = "-"%byte) then (true, s')
        else if bool_decide (c = "+"%byte) then (false, s')
        else (false, s)
    | [] => (false, s)
    end in
  match digits s 0 false with
  | None => inl invalid_argument
  | Some v =>
      let v := if neg then - v else v in
      if bool_decide (INT_MIN ≤ v ≤ INT_MAX) then inr v else inl out_of_range
  end.

(** ** Output streams and [write_samples_csv] (lines 75-83) *)

(** A [std::ofstream]: the path it was opened on ([None] when it is not
    open, in which case every write fails silently) and the text written,
    one entry per call of [write_samples_csv]. *)
Record ofstream := mkStream { opened : option string; rows : list string }.

Definition newline : string := String (Ascii.ascii_of_nat 10) EmptyString.

Definition csv_row (samples : list Z) : string :=
  String.concat "," (pretty <$> samples) +:+ newline.

Definition write_samples_csv (out : ofstream) (samples : list Z) : ofstream :=
  match opened out with
  | Some _ => mkStream (opened out) (rows out ++ [csv_row samples])
  | None => out
  end.

(** Opening [name] for writing; [creatable] says which paths the file
    system lets the program create. *)
Definition open_out (creatable : string → bool) (name : string) : ofstream :=
  mkStream (if creatable name then Some name else None) [].

(** ** How a run ends *)

(** Every way a driver can stop, with the driver's state at that moment.
    [Finished]: the scan loop was left normally or through [goto done].
    [Terminated]: an exception was thrown.  [Overrun]: the decoder read
    outside the frame body, after which the program has no defined
    behaviour.  [OutOfFuel] belongs to the embedding only: the loops are
    iterated a bounded number of times, and [scan_total] below shows that
    the bound the drivers use is never reached. *)
Inductive outcome (St : Type) :=
| Finished (st : St)
| Terminated (e : exn) (st : St)
| Overrun (st : St)
| OutOfFuel (st : St).
Arguments Finished {St} st.
Arguments Terminated {St} e st.
Arguments Overrun {St} st.
Arguments OutOfFuel {St} st.

Definition final_state {St} (o : outcome St) : St :=
  match o with
  | Finished st | Terminated _ st | Overrun st | OutOfFuel st => st
  end.

(** ** The frame scan and the packet loop

    [export_single_channel] (lines 113-158) and [export_all_channels]
    (lines 187-236) contain the same two nested loops and differ only in
    the block executed for each decoded packet.  The loops are written once
    here, over the driver state [St] and that block [on_packet], which
    returns the new state and whether it left through [goto done]. *)
Section Scan.
Context {St : Type}.
Variable on_packet : WaveformPacket → St → St * bool.

(** [while (pos < buffer.size())] with the decoder call and the
    per-packet block.  [inl] is the position and the state with which
    the loop is left (by its condition or by [break]); [inr] ends the
    run. *)
Fixpoint demux_loop (fuel : nat) (buffer : list byte) (pos : Z) (st : St)
    : (Z * St) + outcome St :=
  match fuel with
  | O => inr (OutOfFuel st)
  | S fuel' =>
      if bool_decide (pos < size buffer) then
        match read_waveform_packet buffer pos with
        | ReadFalse pos' => inl (pos', st)
        | ReadOverrun => inr (Overrun st)
        | ReadTrue pos' pkt =>
            let '(st', stop) := on_packet pkt st in
            if stop then inr (Finished st')
            else demux_loop fuel' buffer pos' st'
        end
      else inl (pos, st)
  end.

(** [while (in.get(c))]: [input] is what is left of the file, [topic]
    the accumulated topic text.  A failed [in.read] leaves the stream in
    a failed state, so the [in.get] that follows its [continue] fails and
    the loop is left. *)
Fixpoint scan_loop (fuel : nat) (input topic : list byte) (st : St)
    : outcome St :=
  match fuel with
  | O => OutOfFuel st
  | S fuel' =>
      match input with
      | [] => Finished st
      | c :: input =>
          if bool_decide (c ≠ " "%byte) then
            scan_loop fuel' input (topic ++ [c]) st
          else
            match rfind topic (bytes "_s") with
            | None => scan_loop fuel' input [] st
            | Some size_pos =>
                match stoi (drop (size_pos + 2) topic) with
                | inl e => Terminated e st
                | inr msg_size =>
                    (* std::vector<char> buffer(msg_size): a negative size
                       is refused; the allocation itself is taken to
                       succeed *)
                    if bool_decide (msg_size < 0) then
                      Terminated length_error st
                    else if bool_decide (size input < msg_size) then
                      Finished st
                    else
                      let buffer := take (Z.to_nat msg_size) input in
                      let input := drop (Z.to_nat msg_size) input in
                      if bool_decide (find topic (bytes "data_abcd_waveforms")
                                      = Some 0%nat)
                      then
                        match demux_loop (S (length buffer)) buffer 0 st with
                        | inl (_, st') => scan_loop fuel' input [] st'
                        | inr o => o
                        end
                      else scan_loop fuel' input [] st
                end
            end
      end
  end.

Definition scan (input : list byte) (st : St) : outcome St :=
  scan_loop (S (length input)) input [] st.
End Scan.

(** ** [export_single_channel] (lines 89-165) *)

(** [input_file.substr(0, input_file.find(".adr"))] *)
Definition base_name (input_file : string) : string :=
  match find (bytes input_file) (bytes ".adr") with
  | Some i => String.string_of_list_byte (take i (bytes input_file))
  | None => input_file
  end.

Definition csv_name (input_file : string) (ch : Z) : string :=
  base_name input_file +:+ "_wf_ch" +:+ pretty ch +:+ ".csv".

(** Lines 144-153, on the state [(exported, out)].  The counter is an
    [int]; it is kept as an integer without bound, since more than 2^31
    matching packets would be needed to overflow it. *)
Definition single_packet (channel_id max_waveforms : Z)
    (pkt : WaveformPacket) (st : Z * ofstream) : (Z * ofstream) * bool :=
  let '(exported, out) := st in
  if bool_decide (channel pkt = channel_id) then
    let out := write_samples_csv out (samples pkt) in
    let exported := exported + 1 in
    ((exported, out),
     bool_decide (max_waveforms > 0 ∧ exported >= max_waveforms))
  else (st, false).

(** [contents] is the input file when it can be opened.  The result is
    [None] when the function returns from one of its two error checks, and
    otherwise how the scan ended, with [(exported, out)]. *)
Definition export_single_channel (creatable : string → bool)
    (input_file : string) (contents : option (list byte))
    (channel_id max_waveforms : Z) : option (outcome (Z * ofstream)) :=
  match contents with
  | None => None
  | Some input =>
      let out := open_out creatable (csv_name input_file channel_id) in
      if bool_decide (opened out = None) then None
      else Some (scan (single_packet channel_id max_waveforms) input (0, out))
  end.

(** ** [export_all_channels] (lines 171-246) *)

(** [counts[ch]] of a [std::map<int,int>]: a missing key is first inserted
    with value 0. *)
Definition subscript (counts : gmap Z Z) (ch : Z) : gmap Z Z * Z :=
  match counts !! ch with
  | Some n => (counts, n)
  | None => (<[ch := 0]> counts, 0)
  end.

(** [outputs[ch]] of a [std::map<int,std::ofstream>]: a missing key is
    first inserted with a stream that is not open. *)
Definition subscript_out (outputs : gmap Z ofstream) (ch : Z)
    : gmap Z ofstream * ofstream :=
  match outputs !! ch with
  | Some f => (outputs, f)
  | None => (<[ch := mkStream None []]> outputs, mkStream None [])
  end.

(** Lines 221-226. *)
Definition ensure_sink (creatable : string → bool) (input_file : string)
    (ch : Z) (st : gmap Z ofstream * gmap Z Z) : gmap Z ofstream * gmap Z Z :=
  let '(outputs, counts) := st in
  if bool_decide (outputs !! ch = None) then
    (<[ch := open_out creatable (csv_name input_file ch)]> outputs,
     <[ch := 0]> counts)
  else st.

(** Lines 229-230.  The counters are [int]s, kept here as integers
    without bound. *)
Definition write_and_count (pkt : WaveformPacket) (ch : Z)
    (st : gmap Z ofstream * gmap Z Z) : gmap Z ofstream * gmap Z Z :=
  let '(outputs, counts) := st in
  let '(outputs, f) := subscript_out outputs ch in
  let outputs := <[ch := write_samples_csv f (samples pkt)]> outputs in
  let '(counts, n) := subscript counts ch in
  (outputs, <[ch := n + 1]> counts).

(** Lines 217-231, on the state [(outputs, counts)]. *)
Definition all_packet (creatable : string → bool) (input_file : string)
    (max_per_channel exclude_channel : Z)
    (pkt : WaveformPacket) (st : gmap Z ofstream * gmap Z Z)
    : (gmap Z ofstream * gmap Z Z) * bool :=
  let ch := channel pkt in
  if bool_decide (ch = exclude_channel) then (st, false)
  else
    let st := ensure_sink creatable input_file ch st in
    if bool_decide (max_per_channel ≤ 0) then
      (write_and_count pkt ch st, false)
    else
      let '(counts, n) := subscript st.2 ch in
      if bool_decide (n < max_per_channel) then
        (write_and_count pkt ch (st.1, counts), false)
      else ((st.1, counts), false).

Definition export_all_channels (creatable : string → bool)
    (input_file : string) (contents : option (list byte))
    (max_per_channel exclude_channel : Z)
    : option (outcome (gmap Z ofstream * gmap Z Z)) :=
  match contents with
  | None => None
  | Some input =>
      Some (scan (all_packet creatable input_file max_per_channel
                    exclude_channel) input (∅, ∅))
  end.

(** ** The wire layout of a packet

    Used to state what the decoder must recover: [n]-byte little-endian
    fields, in the order timestamp (8), channel (1), sample count (4),
    gates count (1), then the raw samples (2 each). *)

Definition byte_of (z : Z) : byte :=
  default x00%byte (Byte.of_N (Z.to_N (z mod 256))).

Fixpoint le_bytes (n : nat) (v : Z) : list byte :=
  match n with
  | O => []
  | S n' => byte_of v :: le_bytes n' (v / 256)
  end.

(** A packet as the device emits it, before any trimming. *)
Record raw_packet := mkRaw {
  raw_timestamp : Z;
  raw_channel : Z;
  raw_gates : Z;
  raw_samples : list Z
}.

Definition raw_count (p : raw_packet) : Z := Z.of_nat (length (raw_samples p)).

Definition wire (p : raw_packet) : list byte :=
  le_bytes 8 (raw_timestamp p) ++ le_bytes 1 (raw_channel p)
  ++ le_bytes 4 (raw_count p) ++ le_bytes 1 (raw_gates p)
  ++ concat (le_bytes 2 <$> raw_samples p).

Definition well_formed (p : raw_packet) : Prop :=
  0 ≤ raw_timestamp p < 2 ^ 64 ∧ 0 ≤ raw_channel p < 2 ^ 8
  ∧ raw_count p < 2 ^ 32 ∧ 0 ≤ raw_gates p < 2 ^ 8
  ∧ Forall (λ s, 0 ≤ s < 2 ^ 16) (raw_samples p).

(** The packet the decoder is expected to produce for [p]. *)
Definition decoded (p : raw_packet) : WaveformPacket :=
  mkPacket (raw_timestamp p) (raw_channel p) (raw_count p) (raw_gates p)
           (trim_padding (raw_samples p)).

(** A frame as it lies in the file: the topic, a space, the body. *)
Definition frame (topic body : list byte) : list byte :=
  topic ++ " "%byte :: body.

(** ** Every packet of a stream

    The same scan with a block that only records each decoded packet: the
    packets of the stream, in the order the decoder yields them. *)
Definition record_packet (pkt : WaveformPacket) (acc : list WaveformPacket)
    : list WaveformPacket * bool := (acc ++ [pkt], false).

Definition body_packets (buffer : list byte)
    : (Z * list WaveformPacket) + outcome (list WaveformPacket) :=
  demux_loop record_packet (S (length buffer)) buffer 0 [].

Definition stream_packets (input : list byte) : outcome (list WaveformPacket) :=
  scan record_packet input [].

(** ** Reading a run off the packets of the stream *)

(** The per-packet block applied to a list of packets in order, until it
    leaves through [goto done]. *)
Fixpoint replay {St} (on_packet : WaveformPacket → St → St * bool)
    (pkts : list WaveformPacket) (st : St) : St * bool :=
  match pkts with
  | [] => (st, false)
  | pkt :: pkts' =>
      let '(st', stop) := on_packet pkt st in
      if stop then (st', true) else replay on_packet pkts' st'
  end.

Definition with_state {A B} (o : outcome A) (st : B) : outcome B :=
  match o with
  | Finished _ => Finished st
  | Terminated e _ => Terminated e st
  | Overrun _ => Overrun st
  | OutOfFuel _ => OutOfFuel st
  end.

(** The run of a driver whose scan yields the packets and the ending [o]. *)
Definition resume {St} (on_packet : WaveformPacket → St → St * bool)
    (st : St) (o : outcome (list WaveformPacket)) : outcome St :=
  let '(st', stop) := replay on_packet (final_state o) st in
  if stop then Finished st' else with_state o st'.

Definition resume_body {St} (on_packet : WaveformPacket → St → St * bool)
    (st : St) (r : (Z * list WaveformPacket) + outcome (list WaveformPacket))
    : (Z * St) + outcome St :=
  match r with
  | inl (pos, pkts) =>
      let '(st', stop) := replay on_packet pkts st in
      if stop then inr (Finished st') else inl (pos, st')
  | inr o => inr (resume on_packet st o)
  end.

Definition is_out_of_fuel {St} (o : outcome St) : bool :=
  match o with OutOfFuel _ => true | _ => false end.

(** The first [n] two-byte little-endian values of [src]. *)
Fixpoint pairs_le (n : nat) (src : list byte) : list Z :=
  match n with
  | O => []
  | S n' => le_value (take 2 src) :: pairs_le n' (drop 2 src)
  end.

(** The [count] raw samples of the packet that starts at [pos], read off
    the buffer by their byte offsets. *)
Definition wire_samples (buffer : list byte) (pos count : Z) : list Z :=
  (λ k, le_value (take 2 (drop (Z.to_nat (pos + 14 + 2 * k)) buffer)))
    <$> seqZ 0 count.

(** The packets of [pkts] on channel [ch], in order. *)
Definition on_channel (ch : Z) (pkts : list WaveformPacket)
    : list WaveformPacket :=
  filter (λ p, channel p = ch) pkts.

(** A complete frame: a topic without a space whose text after the last
    [_s] reads as the length of the body. *)
Definition header_ok (topic : list byte) (n : Z) : Prop :=
  (" "%byte ∉ topic) ∧ 0 ≤ n ∧
  ∃ size_pos, rfind topic (bytes "_s") = Some size_pos
              ∧ stoi (drop (size_pos + 2) topic) = inr n.

Definition frame_ok (f : list byte * list byte) : Prop :=
  header_ok f.1 (size f.2).

Definition frames_bytes (fs : list (list byte * list byte)) : list byte :=
  concat ((λ f, frame f.1 f.2) <$> fs).

(** The per-channel cap of all-channels mode applied to a list. *)
Definition capped {A} (max_per_channel : Z) (l : list A) : list A :=
  if bool_decide (max_per_channel ≤ 0) then l
  else take (Z.to_nat max_per_channel) l.

(** ** Concrete inputs used in the examples *)

(** A 14-byte body: a header announcing 2^31 samples and nothing after it. *)
Definition overflow_body : list byte :=
  le_bytes 8 0 ++ le_bytes 1 2 ++ le_bytes 4 (2 ^ 31) ++ le_bytes 1 0.

(** A 14-byte body: a header announcing one sample and nothing after it. *)
Definition header_only_body : list byte :=
  le_bytes 8 0 ++ le_bytes 1 2 ++ le_bytes 4 1 ++ le_bytes 1 0.

(** The two packets of the round-trip scenario and a third on channel 3. *)
Definition packet_A : raw_packet := mkRaw 0 2 0 [10; 20; 30; 40; 50; 60].
Definition packet_B : raw_packet := mkRaw 0 2 0 [5; 6].
Definition packet_C : raw_packet := mkRaw 9 3 1 [1; 2; 3; 4; 5].

Definition waveform_topic (n : Z) : list byte :=
  bytes "data_abcd_waveforms_v0_s" ++ bytes (pretty n).

Definition waveform_frame (body : list byte) : list byte * list byte :=
  (waveform_topic (size body), body).

Definition always : string → bool := λ _, true.

Definition outcome_map {A B} (f : A → B) (o : outcome A) : outcome B :=
  with_state o (f (final_state o)).

(** Packets recorded before a loop is entered, put in front of what the
    loop records. *)
Definition prepend_body (acc : list WaveformPacket)
    (r : (Z * list WaveformPacket) + outcome (list WaveformPacket))
    : (Z * list WaveformPacket) + outcome (list WaveformPacket) :=
  match r with
  | inl (pos, pkts) => inl (pos, acc ++ pkts)
  | inr o => inr (outcome_map (app acc) o)
  end.

(** What the scan does with one complete frame at the head of the input. *)
Definition frame_step {St} (on_packet : WaveformPacket → St → St * bool)
    (topic body : list byte) (st : St) : (Z * St) + outcome St :=
  if bool_decide (find topic (bytes "data_abcd_waveforms") = Some 0%nat)
  then demux_loop on_packet (S (length body)) body 0 st
  else inl (0, st).

(** A stream of two waveform frames, each holding the packets A, B and C. *)
Definition two_frames : list byte :=
  frames_bytes [waveform_frame (wire packet_A ++ wire packet_B ++ wire packet_C);
                waveform_frame (wire packet_A ++ wire packet_B ++ wire packet_C)].

(** What a decoded packet always satisfies: its fields have the width of
    their types. *)
Definition decoded_ok (pkt : WaveformPacket) : Prop :=
  0 ≤ channel pkt < 2 ^ 8 ∧ 0 ≤ sample_count pkt < 2 ^ 32.

(** A decidable form of [header_ok], for concrete topics. *)
Definition header_okb (topic : list byte) (n : Z) : bool :=
  bool_decide (" "%byte ∉ topic) && bool_decide (0 ≤ n)
  && match rfind topic (bytes "_s") with
     | Some size_pos =>
         match stoi (drop (size_pos + 2) topic) with
         | inr m => bool_decide (m = n)
         | inl _ => false
         end
     | None => false
     end.

(** The text of the rows written for a list of packets. *)
Definition csv_rows (pkts : list WaveformPacket) : list string :=
  (λ pkt, csv_row (samples pkt)) <$> pkts.

(** ** What all-channels mode is expected to leave behind *)

(** The sink of channel [ch] once the packets [pkts_ch] of that channel
    have been routed to it under the cap [max_per_channel]. *)
Definition sink_after (creatable : string → bool) (input_file : string)
    (max_per_channel ch : Z) (pkts_ch : list WaveformPacket) : ofstream :=
  if creatable (csv_name input_file ch)
  then mkStream (Some (csv_name input_file ch))
                (csv_rows (capped max_per_channel pkts_ch))
  else mkStream None [].

(** The entries of [outputs] and of [counts] for one channel. *)
Definition view (st : gmap Z ofstream * gmap Z Z) (ch : Z)
    : option ofstream * option Z := (st.1 !! ch, st.2 !! ch).

(** The entries for channel [ch] once the packets [pkts] have been seen. *)
Definition view_after (creatable : string → bool) (input_file : string)
    (max_per_channel exclude_channel ch : Z) (pkts : list WaveformPacket)
    : option ofstream * option Z :=
  let pkts_ch := on_channel ch pkts in
  if bool_decide (ch ≠ exclude_channel ∧ pkts_ch ≠ []) then
    (Some (sink_after creatable input_file max_per_channel ch pkts_ch),
     Some (Z.of_nat (length (capped max_per_channel pkts_ch))))
  else (None, None).

(** The effect of lines 221-231 on the entries of the packet's channel. *)
Definition step_view (creatable : string → bool) (input_file : string)
    (max_per_channel : Z) (pkt : WaveformPacket)
    (v : option ofstream * option Z) : option ofstream * option Z :=
  let '(f, c) :=
    match v.1 with
    | None => (open_out creatable (csv_name input_file (channel pkt)), Some 0)
    | Some f => (f, v.2)
    end in
  let n := default 0 c in
  if bool_decide (max_per_channel ≤ 0 ∨ n < max_per_channel)
  then (Some (write_samples_csv f (samples pkt)), Some (n + 1))
  else (Some f, Some n).

(** ** [main] (lines 252-282)

    The three or four numbers are what [std::cin >>] has parsed from the
    console; the prompts and the parsing itself are left out.  A limit of
    0 is passed on as -1, and channel -1 selects all-channels mode, the
    only mode in which the excluded channel is asked for. *)
Inductive main_result :=
| SingleRun (r : option (outcome (Z * ofstream)))
| AllRun (r : option (outcome (gmap Z ofstream * gmap Z Z))).

Definition main (creatable : string → bool) (filename : string)
    (contents : option (list byte)) (channel max_wf exclude : Z)
    : main_result :=
  if bool_decide (channel = -1) then
    AllRun (export_all_channels creatable filename contents
              (if bool_decide (max_wf = 0) then -1 else max_wf) exclude)
  else
    SingleRun (export_single_channel creatable filename contents channel
                 (if bool_decide (max_wf = 0) then -1 else max_wf)).

(** The scan of a list of complete frames, frame by frame: [inl] when all
    of them have been gone through, [inr] when one of them ended the run. *)
Fixpoint frames_run {St} (on_packet : WaveformPacket → St → St * bool)
    (fs : list (list byte * list byte)) (st : St) : St + outcome St :=
  match fs with
  | [] => inl st
  | (topic, body) :: fs' =>
      match frame_step on_packet topic body st with
      | inl (_, st') => frames_run on_packet fs' st'
      | inr o => inr o
      end
  end.

(** A file of waveform frames, each given by its topic and the packets
    of its body. *)
Definition wire_frames (fs : list (list byte * list raw_packet))
    : list (list byte * list byte) :=
  (λ f, (f.1, concat (wire <$> f.2))) <$> fs.

Definition wire_frame_ok (f : list byte * list raw_packet) : Prop :=
  header_ok f.1 (size (concat (wire <$> f.2)))
  ∧ find f.1 (bytes "data_abcd_waveforms") = Some 0%nat
  ∧ Forall well_formed f.2.

Definition is_digit (c : byte) : Prop := 48 ≤ byte_val c ≤ 57.

(** What the fields of a decoded packet always satisfy, samples included. *)
Definition packet_in_range (pkt : WaveformPacket) : Prop :=
  0 ≤ timestamp pkt < 2 ^ 64 ∧ 0 ≤ channel pkt < 2 ^ 8
  ∧ 0 ≤ sample_count pkt < 2 ^ 32 ∧ 0 ≤ gates_count pkt < 2 ^ 8
  ∧ Forall (λ s, 0 ≤ s < 2 ^ 16) (samples pkt)
  ∧ Z.of_nat (length (samples pkt))
    = if bool_decide (4 ≤ sample_count pkt) then sample_count pkt - 4
      else sample_count pkt.

(** ** Files described by what the device sent

    A complete frame together with the packets it carries: a frame whose
    topic begins with [data_abcd_waveforms] has as body the wire forms of
    well-formed packets, one after the other; a frame of any other topic
    carries none, whatever its body. *)
Definition is_waveform_topic (topic : list byte) : bool :=
  bool_decide (find topic (bytes "data_abcd_waveforms") = Some 0%nat).

Definition holds_packets (f : list byte * list byte) (ps : list raw_packet)
    : Prop :=
  frame_ok f
  ∧ if is_waveform_topic f.1
    then f.2 = concat (wire <$> ps) ∧ Forall well_formed ps
    else ps = [].

Definition described (items : list ((list byte * list byte) * list raw_packet))
    : Prop :=
  Forall (λ x, holds_packets x.1 x.2) items.

(** The bytes of the file, and the packets sent on channel [ch], in order. *)
Definition file_of (items : list ((list byte * list byte) * list raw_packet))
    : list byte :=
  frames_bytes (fst <$> items).

Definition sent_on (ch : Z)
    (items : list ((list byte * list byte) * list raw_packet))
    : list raw_packet :=
  filter (λ p, raw_channel p = ch) (concat (snd <$> items)).

(** The row expected for a packet: its samples without the four trailing
    ones, or all of them when there are fewer than four. *)
Definition row_of (p : raw_packet) : string :=
  csv_row (trim_padding (raw_samples p)).

(** A file with a frame of another topic and two waveform frames, each
    holding the packets A, B and C. *)
Definition mixed_items : list ((list byte * list byte) * list raw_packet) :=
  [((bytes "status_s5", bytes "a _s9"), []);
   (waveform_frame (wire packet_A ++ wire packet_B ++ wire packet_C),
    [packet_A; packet_B; packet_C]);
   (waveform_frame (wire packet_A ++ wire packet_B ++ wire packet_C),
    [packet_A; packet_B; packet_C])].

(** * Properties *)

(** ** Bytes and little-endian values *)

Lemma byte_val_range b : 0 ≤ byte_val b < 256.
Proof.
  unfold byte_val. pose proof (Byte.to_N_bounded b). lia.
Qed.

Lemma byte_val_of z : byte_val (byte_of z) = z mod 256.
Proof.
  unfold byte_val, byte_of.
  assert (Hr : 0 ≤ z mod 256 < 256) by (apply Z.mod_pos_bound; lia).
  destruct (Byte.of_N (Z.to_N (z mod 256))) as [b|] eqn:E.
  - apply Byte.to_of_N in E. simpl. rewrite E. lia.
  - apply Byte.of_N_None_iff in E. lia.
Qed.

Lemma le_value_range bs : 0 ≤ le_value bs < 256 ^ Z.of_nat (length bs).
Proof.
  induction bs as [|b bs IH]; simpl le_value; simpl length.
  - simpl. lia.
  - pose proof (byte_val_range b).
    rewrite Nat2Z.inj_succ, Z.pow_succ_r by lia. lia.
Qed.

Lemma le_value_bytes n v : le_value (le_bytes n v) = v mod 256 ^ Z.of_nat n.
Proof.
  revert v. induction n as [|n IH]; intros v.
  - simpl. by rewrite Z.mod_1_r.
  - simpl le_bytes. simpl le_value. rewrite IH, byte_val_of.
    rewrite Nat2Z.inj_succ, Z.pow_succ_r by lia.
    rewrite Z.rem_mul_r by lia. lia.
Qed.

Lemma length_le_bytes n v : length (le_bytes n v) = n.
Proof. revert v. induction n; intros; simpl; auto. Qed.

Lemma le_value_bytes_small n v :
  0 ≤ v < 256 ^ Z.of_nat n → le_value (le_bytes n v) = v.
Proof. intros. rewrite le_value_bytes. by apply Z.mod_small. Qed.

Lemma wrap64_small z : 0 ≤ z < 2 ^ 64 → wrap64 z = z.
Proof. intros. unfold wrap64. by apply Z.mod_small. Qed.

Lemma wrap32_small z : 0 ≤ z < 2 ^ 32 → wrap32 z = z.
Proof. intros. unfold wrap32. by apply Z.mod_small. Qed.

Lemma memcpy_le_Some buffer pos n v :
  memcpy_le buffer pos n = Some v →
  0 ≤ pos ∧ pos + Z.of_nat n ≤ size buffer
  ∧ v = le_value (take n (drop (Z.to_nat pos) buffer))
  ∧ 0 ≤ v < 256 ^ Z.of_nat n.
Proof.
  unfold memcpy_le. case_bool_decide as Hb; [|done].
  intros [= <-]. split_and!; try lia; try done.
  - apply le_value_range.
  - eapply Z.lt_le_trans; [apply le_value_range|].
    apply Z.pow_le_mono_r; [lia|]. rewrite length_take. lia.
Qed.

Lemma memcpy_le_in buffer pos n :
  0 ≤ pos → pos + Z.of_nat n ≤ size buffer →
  memcpy_le buffer pos n = Some (le_value (take n (drop (Z.to_nat pos) buffer))).
Proof.
  intros. unfold memcpy_le. by rewrite bool_decide_true.
Qed.

(** ** The packet decoder *)

Lemma sample_loop_Some count src i pos raw pos' :
  0 ≤ i → count < 2 ^ 32 →
  sample_loop count src i pos = Some (raw, pos') →
  (2 * Z.to_nat (count - i) ≤ length src)%nat
  ∧ raw = pairs_le (Z.to_nat (count - i)) src.
Proof.
  remember (Z.to_nat (count - i)) as n eqn:Hn.
  revert src i pos raw pos' Hn.
  induction n as [|n IH]; intros src i pos raw pos' Hn Hi Hc.
  - destruct src as [|b0 [|b1 src']]; simpl;
      (rewrite bool_decide_false by lia); intros [= <- <-]; split; done || lia.
  - destruct src as [|b0 [|b1 src']]; simpl;
      (rewrite bool_decide_true by lia); try done.
    rewrite (wrap32_small (i + 1)) by lia.
    destruct (sample_loop count src' (i + 1) (wrap64 (pos + 2)))
      as [[rest p]|] eqn:E; [|done].
    intros [= <- <-].
    apply IH in E as [Hlen ->]; [|lia..].
    split; [simpl; lia|done].
Qed.

Lemma sample_loop_in count src i pos :
  0 ≤ i → count < 2 ^ 32 → 0 ≤ pos →
  pos + 2 * Z.of_nat (Z.to_nat (count - i)) < 2 ^ 64 →
  (2 * Z.to_nat (count - i) ≤ length src)%nat →
  sample_loop count src i pos
  = Some (pairs_le (Z.to_nat (count - i)) src,
          pos + 2 * Z.of_nat (Z.to_nat (count - i))).
Proof.
  remember (Z.to_nat (count - i)) as n eqn:Hn.
  revert src i pos Hn.
  induction n as [|n IH]; intros src i pos Hn Hi Hc Hp Hw Hlen.
  - destruct src as [|b0 [|b1 src']]; simpl;
      (rewrite bool_decide_false by lia); do 2 f_equal; lia.
  - destruct src as [|b0 [|b1 src']]; simpl in Hlen; try lia.
    simpl. rewrite bool_decide_true by lia.
    rewrite (wrap32_small (i + 1)), (wrap64_small (pos + 2)) by lia.
    rewrite (IH src' (i + 1) (pos + 2)) by lia.
    do 2 f_equal. lia.
Qed.

Lemma length_pairs_le n src : length (pairs_le n src) = n.
Proof. revert src. induction n; intros; simpl; auto. Qed.

Lemma pairs_le_lookup n src (k : nat) :
  (k < n)%nat →
  pairs_le n src !! k = Some (le_value (take 2 (drop (2 * k) src))).
Proof.
  revert src k. induction n as [|n IH]; intros src k Hk; [lia|].
  destruct k as [|k].
  - simpl. by rewrite drop_0.
  - change (pairs_le (S n) src !! S k) with (pairs_le n (drop 2 src) !! k).
    rewrite IH by lia. rewrite drop_drop.
    replace (2 + 2 * k)%nat with (2 * S k)%nat by lia. done.
Qed.

(** What a successful call has read, field by field. *)
Lemma read_true buffer pos pos' pkt :
  size buffer < 2 ^ 64 →
  read_waveform_packet buffer pos = ReadTrue pos' pkt →
  0 ≤ pos ∧ pos' = pos + 14 + 2 * sample_count pkt ∧ pos' ≤ size buffer
  ∧ 0 ≤ sample_count pkt < 2 ^ 32
  ∧ timestamp pkt = le_value (take 8 (drop (Z.to_nat pos) buffer))
  ∧ channel pkt = le_value (take 1 (drop (Z.to_nat (pos + 8)) buffer))
  ∧ sample_count pkt = le_value (take 4 (drop (Z.to_nat (pos + 9)) buffer))
  ∧ gates_count pkt = le_value (take 1 (drop (Z.to_nat (pos + 13)) buffer))
  ∧ samples pkt
    = trim_padding (pairs_le (Z.to_nat (sample_count pkt))
                             (drop (Z.to_nat (pos + 14)) buffer)).
Proof.
  intros Hsz. unfold read_waveform_packet.
  case_bool_decide as H14; [done|].
  destruct (memcpy_le buffer pos 8) as [ts|] eqn:E1; [|done].
  apply memcpy_le_Some in E1 as (Hp & Hb1 & -> & _).
  rewrite (wrap64_small (pos + 8)) by lia.
  destruct (memcpy_le buffer (pos + 8) 1) as [ch|] eqn:E2; [|done].
  apply memcpy_le_Some in E2 as (_ & Hb2 & -> & _).
  rewrite (wrap64_small (pos + 8 + 1)) by lia.
  destruct (memcpy_le buffer (pos + 8 + 1) 4) as [count|] eqn:E3; [|done].
  apply memcpy_le_Some in E3 as (_ & Hb3 & Hcount & Hcr).
  rewrite (wrap64_small (pos + 8 + 1 + 4)) by lia.
  destruct (memcpy_le buffer (pos + 8 + 1 + 4) 1) as [gates|] eqn:E4; [|done].
  apply memcpy_le_Some in E4 as (_ & Hb4 & -> & _).
  rewrite (wrap64_small (pos + 8 + 1 + 4 + 1)) by lia.
  case_bool_decide as Hs; [done|].
  destruct (sample_loop count _ 0 _) as [[raw p]|] eqn:E5; [|done].
  intros [= <- <-]. simpl.
  change (256 ^ Z.of_nat 4) with (2 ^ 32) in Hcr.
  pose proof E5 as E5'.
  apply sample_loop_Some in E5' as [Hlen ->]; [|lia..].
  rewrite Z.sub_0_r in *.
  rewrite length_drop in Hlen. unfold size in *.
  rewrite sample_loop_in in E5; [| try lia..].
  - injection E5 as _ <-. rewrite Z.sub_0_r, Z2Nat.id by lia.
    replace (pos + 8 + 1) with (pos + 9) in * by lia.
    replace (pos + 9 + 4) with (pos + 13) in * by lia.
    replace (pos + 13 + 1) with (pos + 14) in * by lia.
    split_and!; try done; lia.
  - rewrite Z.sub_0_r, length_drop. lia.
Qed.

(** A packet that lies inside the buffer is decoded. *)
Lemma read_in buffer pos :
  size buffer < 2 ^ 64 → 0 ≤ pos →
  let count := le_value (take 4 (drop (Z.to_nat (pos + 9)) buffer)) in
  pos + 14 + 2 * count ≤ size buffer →
  read_waveform_packet buffer pos
  = ReadTrue (pos + 14 + 2 * count)
      (mkPacket (le_value (take 8 (drop (Z.to_nat pos) buffer)))
                (le_value (take 1 (drop (Z.to_nat (pos + 8)) buffer)))
                count
                (le_value (take 1 (drop (Z.to_nat (pos + 13)) buffer)))
                (trim_padding (pairs_le (Z.to_nat count)
                                 (drop (Z.to_nat (pos + 14)) buffer)))).
Proof.
  intros Hsz Hp count Hfit.
  assert (Hc : 0 ≤ count < 2 ^ 32).
  { pose proof (le_value_range (take 4 (drop (Z.to_nat (pos + 9)) buffer))) as Hr.
    split; [apply Hr|]. eapply Z.lt_le_trans; [apply Hr|].
    change (2 ^ 32) with (256 ^ 4). apply Z.pow_le_mono_r; [lia|].
    rewrite length_take. lia. }
  unfold read_waveform_packet.
  rewrite (wrap64_small (pos + 14)) by lia.
  rewrite bool_decide_false by lia.
  rewrite memcpy_le_in by lia.
  rewrite (wrap64_small (pos + 8)) by lia.
  rewrite memcpy_le_in by lia.
  rewrite (wrap64_small (pos + 8 + 1)) by lia.
  rewrite memcpy_le_in by lia.
  rewrite (wrap64_small (pos + 8 + 1 + 4)) by lia.
  rewrite memcpy_le_in by lia.
  rewrite (wrap64_small (pos + 8 + 1 + 4 + 1)) by lia.
  replace (pos + 8 + 1) with (pos + 9) by lia.
  replace (pos + 9 + 4) with (pos + 13) by lia.
  replace (pos + 13 + 1) with (pos + 14) by lia.
  fold count.
  assert (Hw : 0 ≤ wrap32 (count * 2) ≤ count * 2).
  { unfold wrap32. split; [apply Z.mod_pos_bound; lia|].
    apply Z.mod_le; lia. }
  rewrite (wrap64_small (pos + 14 + _)) by lia.
  rewrite bool_decide_false by lia.
  unfold size in *.
  rewrite sample_loop_in; rewrite ?Z.sub_0_r, ?length_drop; try lia.
  do 2 f_equal. lia.
Qed.

Lemma pairs_le_wire buffer pos count :
  0 ≤ pos →
  pairs_le (Z.to_nat count) (drop (Z.to_nat (pos + 14)) buffer)
  = wire_samples buffer pos count.
Proof.
  intros Hp. apply list_eq. intros k. unfold wire_samples.
  rewrite list_lookup_fmap.
  destruct (decide (k < Z.to_nat count)%nat) as [Hk|Hk].
  - rewrite pairs_le_lookup by done.
    rewrite lookup_seqZ_lt by lia. simpl. rewrite drop_drop.
    do 3 f_equal. f_equal. lia.
  - rewrite lookup_ge_None_2 by (rewrite length_pairs_le; lia).
    rewrite lookup_seqZ_ge by lia. done.
Qed.

Lemma length_wire_samples buffer pos count :
  0 ≤ count → Z.of_nat (length (wire_samples buffer pos count)) = count.
Proof.
  intros. unfold wire_samples. rewrite length_fmap, length_seqZ. lia.
Qed.

(** C2, at the failing input: a 14-byte body whose header announces 2^31
    samples.  The product [sample_count * 2] is formed in 32 bits and is 0,
    so the size check passes although no sample is present, and the sample
    loop reads at [buffer[14]], outside the buffer.  The same body reaches
    the decoder from a file through either driver. *)
Theorem read_waveform_packet_count_overflow :
  size overflow_body = 14
  ∧ memcpy_le overflow_body 9 4 = Some (2 ^ 31)
  ∧ read_waveform_packet overflow_body 0 = ReadOverrun
  ∧ export_single_channel always "run.adr"
      (Some (frames_bytes [waveform_frame overflow_body])) 2 (-1)
    = Some (Overrun (0, mkStream (Some "run_wf_ch2.csv") []))
  ∧ export_all_channels always "run.adr"
      (Some (frames_bytes [waveform_frame overflow_body])) (-1) (-1)
    = Some (Overrun (∅, ∅)).
Proof. split_and!; by vm_compute. Qed.

(** C3: the samples stored by a successful call are the raw samples on the
    wire, in order, without the last four when there are at least four of
    them, and all of them otherwise. *)
Theorem stored_samples_trimmed buffer pos pos' pkt :
  size buffer < 2 ^ 64 →
  read_waveform_packet buffer pos = ReadTrue pos' pkt →
  let raw := wire_samples buffer pos (sample_count pkt) in
  memcpy_le buffer (pos + 9) 4 = Some (sample_count pkt)
  ∧ Z.of_nat (length raw) = sample_count pkt
  ∧ (4 ≤ sample_count pkt →
       samples pkt = take (Z.to_nat (sample_count pkt - 4)) raw
       ∧ Z.of_nat (length (samples pkt)) = sample_count pkt - 4)
  ∧ (sample_count pkt < 4 → samples pkt = raw).
Proof.
  intros Hsz Hread raw.
  apply read_true in Hread as (Hp & -> & Hle & Hc & _ & _ & Hsc & _ & Hs);
    [|done].
  rewrite pairs_le_wire in Hs by done. fold raw in Hs.
  assert (Hlen : Z.of_nat (length raw) = sample_count pkt)
    by (apply length_wire_samples; lia).
  split; [rewrite memcpy_le_in by lia; by rewrite Hsc|].
  split; [done|]. rewrite Hs. unfold trim_padding. split; intros H4.
  - rewrite bool_decide_true by lia.
    replace (length raw - 4)%nat with (Z.to_nat (sample_count pkt - 4)) by lia.
    split; [done|]. rewrite length_take. lia.
  - by rewrite bool_decide_false by lia.
Qed.

Lemma stored_samples_trimmed_witness :
  size (wire packet_A) < 2 ^ 64
  ∧ read_waveform_packet (wire packet_A) 0 = ReadTrue 26 (decoded packet_A)
  ∧ (4 ≤ sample_count (decoded packet_A) →
       samples (decoded packet_A)
       = take (Z.to_nat (sample_count (decoded packet_A) - 4))
              (wire_samples (wire packet_A) 0 (sample_count (decoded packet_A)))
       ∧ Z.of_nat (length (samples (decoded packet_A)))
         = sample_count (decoded packet_A) - 4).
Proof.
  assert (H1 : size (wire packet_A) < 2 ^ 64) by (by vm_compute).
  assert (H2 : read_waveform_packet (wire packet_A) 0
               = ReadTrue 26 (decoded packet_A)) by (by vm_compute).
  split_and!; [exact H1|exact H2|].
  exact (proj1 (proj2 (proj2 (stored_samples_trimmed _ _ _ _ H1 H2)))).
Defined.

(** C7, counterexample: on a body that holds a header announcing one sample
    and no sample, the call returns [false] with [pos] moved from 0 to 14. *)
Lemma failing_read_moves_pos :
  read_waveform_packet header_only_body 0 = ReadFalse 14
  ∧ ¬ (∀ buffer pos pos',
         read_waveform_packet buffer pos = ReadFalse pos' → pos' = pos).
Proof.
  assert (H : read_waveform_packet header_only_body 0 = ReadFalse 14)
    by (by vm_compute).
  split; [exact H|]. intros Hall. by specialize (Hall _ _ _ H).
Qed.

(** C7, amended: a call that returns [false] because the 14-byte header
    does not fit leaves [pos] as it was; a call that returns [false] because
    the samples do not fit has consumed the header and leaves [pos] 14
    further. *)
Theorem failing_read_position buffer pos pos' :
  size buffer < 2 ^ 63 → 0 ≤ pos ≤ size buffer →
  read_waveform_packet buffer pos = ReadFalse pos' →
  (size buffer < pos + 14 ∧ pos' = pos)
  ∨ (pos + 14 ≤ size buffer ∧ pos' = pos + 14
     ∧ ∃ count, memcpy_le buffer (pos + 9) 4 = Some count
                ∧ size buffer < pos + 14 + wrap32 (count * 2)).
Proof.
  intros Hsz Hp. unfold read_waveform_packet.
  rewrite (wrap64_small (pos + 14)) by lia.
  case_bool_decide as H14; [intros [= <-]; left; split; [lia|done]|].
  rewrite (wrap64_small (pos + 8)) by lia.
  rewrite (wrap64_small (pos + 8 + 1)) by lia.
  rewrite (wrap64_small (pos + 8 + 1 + 4)) by lia.
  rewrite (wrap64_small (pos + 8 + 1 + 4 + 1)) by lia.
  rewrite !memcpy_le_in by lia.
  replace (pos + 8 + 1) with (pos + 9) by lia.
  set (count := le_value (take 4 (drop (Z.to_nat (pos + 9)) buffer))).
  assert (Hw : 0 ≤ wrap32 (count * 2) < 2 ^ 32)
    by (apply Z.mod_pos_bound; lia).
  rewrite (wrap64_small (pos + 9 + 4 + 1 + _)) by lia.
  case_bool_decide as Hs.
  - intros [= <-]. right. split_and!; [lia..|].
    exists count. split; [done|lia].
  - by destruct (sample_loop _ _ _ _) as [[??]|].
Qed.

Lemma failing_read_position_witness :
  (size header_only_body < 0 + 14 ∧ 14 = 0)
  ∨ (0 + 14 ≤ size header_only_body ∧ 14 = 0 + 14
     ∧ ∃ count, memcpy_le header_only_body (0 + 9) 4 = Some count
                ∧ size header_only_body < 0 + 14 + wrap32 (count * 2)).
Proof.
  apply (failing_read_position header_only_body 0 14).
  - by vm_compute.
  - by vm_compute.
  - by vm_compute.
Defined.

(** ** Runs as replays of the packets of the stream *)

Section Replay.
Context {St : Type}.
Variable on_packet : WaveformPacket → St → St * bool.

Lemma replay_app pkts1 pkts2 st :
  replay on_packet (pkts1 ++ pkts2) st
  = let '(st', stop) := replay on_packet pkts1 st in
    if stop then (st', true) else replay on_packet pkts2 st'.
Proof.
  revert st. induction pkts1 as [|pkt pkts1 IH]; intros st; simpl; [done|].
  destruct (on_packet pkt st) as [st' []]; [done|]. apply IH.
Qed.

Lemma resume_prepend pkts st o :
  resume on_packet st (outcome_map (app pkts) o)
  = let '(st', stop) := replay on_packet pkts st in
    if stop then Finished st' else resume on_packet st' o.
Proof.
  unfold resume.
  replace (final_state (outcome_map (app pkts) o))
    with (pkts ++ final_state o) by (by destruct o).
  rewrite replay_app.
  destruct (replay on_packet pkts st) as [st' []]; [done|].
  destruct (replay on_packet (final_state o) st') as [st'' []]; [done|].
  by destruct o.
Qed.

Lemma resume_body_prepend pkts st r :
  resume_body on_packet st (prepend_body pkts r)
  = let '(st', stop) := replay on_packet pkts st in
    if stop then inr (Finished st') else resume_body on_packet st' r.
Proof.
  destruct r as [[pos l]|o]; simpl.
  - rewrite replay_app.
    destruct (replay on_packet pkts st) as [st' []]; done.
  - rewrite resume_prepend.
    destruct (replay on_packet pkts st) as [st' []]; done.
Qed.
End Replay.

Lemma demux_record_acc fuel buffer pos acc :
  demux_loop record_packet fuel buffer pos acc
  = prepend_body acc (demux_loop record_packet fuel buffer pos []).
Proof.
  revert pos acc. induction fuel as [|fuel IH]; intros pos acc; simpl.
  - unfold outcome_map. simpl. by rewrite app_nil_r.
  - case_bool_decide; [|simpl; by rewrite app_nil_r].
    destruct (read_waveform_packet buffer pos) as [pos' pkt|pos'|]; simpl.
    + rewrite (IH pos' (acc ++ [pkt])), (IH pos' [pkt]).
      destruct (demux_loop record_packet fuel buffer pos' []) as [[p l]|o];
        simpl; [by rewrite <- app_assoc|].
      unfold outcome_map. destruct o; simpl; by rewrite <- app_assoc.
    + by rewrite app_nil_r.
    + unfold outcome_map. simpl. by rewrite app_nil_r.
Qed.

Lemma scan_record_acc fuel input topic acc :
  scan_loop record_packet fuel input topic acc
  = outcome_map (app acc) (scan_loop record_packet fuel input topic []).
Proof.
  revert input topic acc.
  induction fuel as [|fuel IH]; intros input topic acc;
    [unfold outcome_map; simpl; by rewrite app_nil_r|].
  destruct input as [|c input]; cbn [scan_loop];
    [unfold outcome_map; simpl; by rewrite app_nil_r|].
  case_bool_decide; [apply IH|].
  destruct (rfind topic (bytes "_s")) as [size_pos|]; [|apply IH].
  destruct (stoi _) as [e|msg_size];
    [unfold outcome_map; simpl; by rewrite app_nil_r|].
  case_bool_decide; [unfold outcome_map; simpl; by rewrite app_nil_r|].
  case_bool_decide; [unfold outcome_map; simpl; by rewrite app_nil_r|].
  case_bool_decide; [|apply IH].
  rewrite demux_record_acc.
  destruct (demux_loop record_packet _ _ 0 []) as [[p l]|o]; simpl.
  - rewrite (IH _ _ (acc ++ l)), (IH _ _ l).
    unfold outcome_map.
    destruct (scan_loop record_packet fuel _ [] []); simpl;
      by rewrite <- app_assoc.
  - done.
Qed.

Section ReplayLoops.
Context {St : Type}.
Variable on_packet : WaveformPacket → St → St * bool.

(** The packet loop of a driver does what its per-packet block does on
    the packets of the body, in order. *)
Lemma demux_replay fuel buffer pos st :
  demux_loop on_packet fuel buffer pos st
  = resume_body on_packet st (demux_loop record_packet fuel buffer pos []).
Proof.
  revert pos st. induction fuel as [|fuel IH]; intros pos st; simpl; [done|].
  case_bool_decide; [|done].
  destruct (read_waveform_packet buffer pos) as [pos' pkt|pos'|];
    simpl; [|done..].
  rewrite demux_record_acc, resume_body_prepend. simpl.
  destruct (on_packet pkt st) as [st' []]; [done|]. apply IH.
Qed.

(** The same for a whole scan. *)
Lemma scan_loop_replay fuel input topic st :
  scan_loop on_packet fuel input topic st
  = resume on_packet st (scan_loop record_packet fuel input topic []).
Proof.
  revert input topic st.
  induction fuel as [|fuel IH]; intros input topic st; [done|].
  destruct input as [|c input]; cbn [scan_loop]; [done|].
  case_bool_decide; [apply IH|].
  destruct (rfind topic (bytes "_s")) as [size_pos|]; [|apply IH].
  destruct (stoi _) as [e|msg_size]; [done|].
  case_bool_decide; [done|].
  case_bool_decide; [done|].
  case_bool_decide; [|apply IH].
  rewrite demux_replay.
  destruct (demux_loop record_packet _ _ 0 []) as [[p l]|o]; simpl; [|done].
  rewrite scan_record_acc, resume_prepend.
  destruct (replay on_packet l st) as [st' []]; [done|]. apply IH.
Qed.

Lemma scan_replay input st :
  scan on_packet input st = resume on_packet st (stream_packets input).
Proof. apply scan_loop_replay. Qed.
End ReplayLoops.

Lemma stoi_range s v : stoi s = inr v → INT_MIN ≤ v ≤ INT_MAX.
Proof.
  intros Hs. unfold stoi in Hs. destruct (skip_space s) as [|c0 s0];
    repeat (case_bool_decide || case_match || simplify_eq); done.
Qed.

(** ** The bounds on the number of iterations are never reached *)

Section Fuel.
Context {St : Type}.
Variable on_packet : WaveformPacket → St → St * bool.

Lemma demux_total fuel buffer pos st :
  size buffer < 2 ^ 64 → 0 ≤ pos →
  (Z.to_nat (size buffer - pos) < fuel)%nat →
  match demux_loop on_packet fuel buffer pos st with
  | inl _ => True
  | inr o => is_out_of_fuel o = false
  end.
Proof.
  intros Hsz. revert pos st.
  induction fuel as [|fuel IH]; intros pos st Hp Hf; [lia|]. simpl.
  case_bool_decide as Hlt; [|done].
  destruct (read_waveform_packet buffer pos) as [pos' pkt|pos'|] eqn:E;
    [|done..].
  apply read_true in E as (_ & -> & Hle & Hc & _); [|done].
  destruct (on_packet pkt st) as [st' []]; [done|].
  apply IH; lia.
Qed.

Lemma scan_loop_fuel f1 f2 input topic st :
  (length input < f1)%nat → (length input < f2)%nat →
  scan_loop on_packet f1 input topic st
  = scan_loop on_packet f2 input topic st.
Proof.
  revert f2 input topic st.
  induction f1 as [|f1 IH]; intros f2 input topic st H1 H2; [lia|].
  destruct f2 as [|f2]; [lia|].
  destruct input as [|c input]; cbn [scan_loop]; [done|].
  simpl in H1, H2.
  case_bool_decide; [apply IH; lia|].
  destruct (rfind topic (bytes "_s")) as [size_pos|]; [|apply IH; lia].
  destruct (stoi _) as [e|msg_size]; [done|].
  case_bool_decide; [done|].
  case_bool_decide; [done|].
  assert (Hd : (length (drop (Z.to_nat msg_size) input) ≤ length input)%nat)
    by (rewrite length_drop; lia).
  case_bool_decide; [|apply IH; lia].
  destruct (demux_loop _ _ _ _ _) as [[p st']|o]; [|done].
  apply IH; lia.
Qed.

(** A scan given more iterations than the input has bytes stops by
    itself: the drivers always end in one of the three ways the program
    can end. *)
Lemma scan_loop_total fuel input topic st :
  (length input < fuel)%nat →
  is_out_of_fuel (scan_loop on_packet fuel input topic st) = false.
Proof.
  revert input topic st.
  induction fuel as [|fuel IH]; intros input topic st Hf; [lia|].
  destruct input as [|c input]; cbn [scan_loop]; [done|].
  simpl in Hf.
  case_bool_decide; [apply IH; lia|].
  destruct (rfind topic (bytes "_s")) as [size_pos|]; [|apply IH; lia].
  destruct (stoi _) as [e|msg_size] eqn:Es; [done|].
  case_bool_decide; [done|].
  case_bool_decide as Hshort; [done|].
  assert (Hd : (length (drop (Z.to_nat msg_size) input) ≤ length input)%nat)
    by (rewrite length_drop; lia).
  case_bool_decide; [|apply IH; lia].
  set (buffer := take (Z.to_nat msg_size) input).
  assert (Hb : size buffer < 2 ^ 64).
  { apply stoi_range in Es. unfold size, buffer, INT_MAX in *.
    rewrite length_take. lia. }
  pose proof (demux_total (S (length buffer)) buffer 0 st Hb) as Ht.
  destruct (demux_loop _ _ _ _ _) as [[p st']|o].
  - apply IH; lia.
  - apply Ht; unfold size; lia.
Qed.

Lemma scan_total input st : is_out_of_fuel (scan on_packet input st) = false.
Proof. apply scan_loop_total. lia. Qed.

(** ** Complete frames *)

Lemma scan_loop_topic t fuel rest topic st :
  (" "%byte ∉ t) →
  scan_loop on_packet (length t + fuel) (t ++ rest) topic st
  = scan_loop on_packet fuel rest (topic ++ t) st.
Proof.
  revert topic. induction t as [|c t IH]; intros topic Hsp.
  - by rewrite app_nil_r.
  - apply not_elem_of_cons in Hsp as [Hc Ht].
    change (length (c :: t) + fuel)%nat with (S (length t + fuel)).
    cbn [scan_loop app]. rewrite bool_decide_true by done.
    rewrite IH by done. by rewrite <- app_assoc.
Qed.

Lemma scan_frame topic body rest st :
  header_ok topic (size body) →
  scan on_packet (frame topic body ++ rest) st
  = match frame_step on_packet topic body st with
    | inl (_, st') => scan on_packet rest st'
    | inr o => o
    end.
Proof.
  intros (Hsp & Hn & size_pos & Hr & Hs). unfold frame.
  rewrite <- app_assoc. unfold scan at 1.
  rewrite (scan_loop_fuel _ (length topic + S (S (length (body ++ rest)))))
    by (rewrite ?length_app; simpl; rewrite ?length_app; lia).
  rewrite scan_loop_topic by done. simpl app at 1.
  remember (S (length (body ++ rest))) as f eqn:Hf.
  cbn [scan_loop app]. subst f.
  rewrite bool_decide_false by (intros Hne; by apply Hne).
  rewrite Hr, Hs.
  rewrite bool_decide_false by lia.
  rewrite bool_decide_false by (unfold size; rewrite length_app; lia).
  unfold size. rewrite Nat2Z.id.
  rewrite take_app_length, drop_app_length.
  unfold frame_step.
  case_bool_decide.
  - destruct (demux_loop _ _ _ _ _) as [[p st']|o]; [|done].
    unfold scan. apply scan_loop_fuel; rewrite ?length_app; lia.
  - unfold scan. apply scan_loop_fuel; rewrite ?length_app; lia.
Qed.

(** A header followed by fewer bytes than it announces ends the scan. *)
Lemma scan_truncated topic n partial st :
  header_ok topic n → size partial < n →
  scan on_packet (frame topic partial) st = Finished st.
Proof.
  intros (Hsp & Hn & size_pos & Hr & Hs) Hshort. unfold scan, frame.
  rewrite (scan_loop_fuel _ (length topic + S (S (length partial))))
    by (rewrite ?length_app; simpl; lia).
  rewrite scan_loop_topic by done. simpl app at 1.
  cbn [scan_loop].
  rewrite bool_decide_false by (intros Hne; by apply Hne).
  rewrite Hr, Hs.
  rewrite bool_decide_false by lia.
  by rewrite bool_decide_true by done.
Qed.

Lemma scan_nil st : scan on_packet [] st = Finished st.
Proof. done. Qed.

Lemma scan_frames_truncated fs topic n partial st :
  Forall frame_ok fs → header_ok topic n → size partial < n →
  scan on_packet (frames_bytes fs ++ frame topic partial) st
  = scan on_packet (frames_bytes fs) st.
Proof.
  intros Hfs Hh Hshort. revert st.
  induction Hfs as [|[t b] fs Hf Hfs IH]; intros st.
  - simpl. rewrite scan_nil. by eapply scan_truncated.
  - unfold frames_bytes in *. rewrite fmap_cons. simpl concat.
    rewrite <- app_assoc. rewrite !scan_frame by done.
    destruct (frame_step on_packet t b st) as [[p st']|o]; [apply IH|done].
Qed.
End Fuel.

(** ** Invariants of a run *)

Lemma read_true_decoded_ok buffer pos pos' pkt :
  size buffer < 2 ^ 64 →
  read_waveform_packet buffer pos = ReadTrue pos' pkt → decoded_ok pkt.
Proof.
  intros Hsz Hread. unfold decoded_ok.
  apply read_true in Hread as (_ & _ & _ & Hc & _ & -> & _); [|done].
  split; [|done].
  pose proof (le_value_range (take 1 (drop (Z.to_nat (pos + 8)) buffer))) as Hr.
  split; [apply Hr|]. eapply Z.lt_le_trans; [apply Hr|].
  change (2 ^ 8) with (256 ^ 1). apply Z.pow_le_mono_r; [lia|].
  rewrite length_take. lia.
Qed.

Section Invariant.
Context {St : Type}.
Variable on_packet : WaveformPacket → St → St * bool.
Variable P : St → Prop.
Hypothesis step :
  ∀ pkt st, decoded_ok pkt → P st → P (on_packet pkt st).1.

Lemma demux_invariant fuel buffer pos st :
  size buffer < 2 ^ 64 → P st →
  match demux_loop on_packet fuel buffer pos st with
  | inl (_, st') => P st'
  | inr o => P (final_state o)
  end.
Proof.
  intros Hsz. revert pos st.
  induction fuel as [|fuel IH]; intros pos st HP; simpl; [done|].
  case_bool_decide; [|done].
  destruct (read_waveform_packet buffer pos) as [pos' pkt|pos'|] eqn:E;
    [|done..].
  apply read_true_decoded_ok in E; [|done].
  pose proof (step pkt st E HP) as HP'.
  destruct (on_packet pkt st) as [st' []]; [done|]. by apply IH.
Qed.

Lemma scan_loop_invariant fuel input topic st :
  P st → P (final_state (scan_loop on_packet fuel input topic st)).
Proof.
  revert input topic st.
  induction fuel as [|fuel IH]; intros input topic st HP; [done|].
  destruct input as [|c input]; cbn [scan_loop]; [done|].
  case_bool_decide; [by apply IH|].
  destruct (rfind topic (bytes "_s")) as [size_pos|]; [|by apply IH].
  destruct (stoi _) as [e|msg_size] eqn:Es; [done|].
  case_bool_decide; [done|].
  case_bool_decide; [done|].
  case_bool_decide; [|by apply IH].
  set (buffer := take (Z.to_nat msg_size) input).
  assert (Hb : size buffer < 2 ^ 64).
  { apply stoi_range in Es. unfold size, buffer, INT_MAX in *.
    rewrite length_take. lia. }
  pose proof (demux_invariant (S (length buffer)) buffer 0 st Hb HP) as Hd.
  destruct (demux_loop _ _ _ _ _) as [[p st']|o]; [by apply IH|done].
Qed.
End Invariant.

(** Every packet a scan yields has fields of the width of their types. *)
Lemma stream_packets_decoded_ok input :
  Forall decoded_ok (final_state (stream_packets input)).
Proof.
  apply (scan_loop_invariant record_packet (Forall decoded_ok)); [|done].
  intros pkt acc Hpkt Hacc. simpl. apply Forall_app. by split; [|constructor].
Qed.

(** ** The frame scan *)

(** C1, at failing inputs: a topic that ends in [_s] with nothing after it,
    one with letters after it and one with a number too large for an [int]
    make [std::stoi] throw, and nothing catches the exception; a negative
    number makes the construction of the body buffer throw.  The run is
    aborted in both drivers, where a topic without any [_s] is discarded
    and the scan goes on. *)
Theorem unparsable_size_aborts :
  export_single_channel always "run.adr" (Some (bytes "x_s ")) 2 (-1)
  = Some (Terminated invalid_argument (0, mkStream (Some "run_wf_ch2.csv") []))
  ∧ export_all_channels always "run.adr" (Some (bytes "x_s ")) (-1) (-1)
    = Some (Terminated invalid_argument (∅, ∅))
  ∧ export_single_channel always "run.adr" (Some (bytes "x_sab ")) 2 (-1)
    = Some (Terminated invalid_argument (0, mkStream (Some "run_wf_ch2.csv") []))
  ∧ export_single_channel always "run.adr"
      (Some (bytes "x_s99999999999 ")) 2 (-1)
    = Some (Terminated out_of_range (0, mkStream (Some "run_wf_ch2.csv") []))
  ∧ export_single_channel always "run.adr" (Some (bytes "x_s-3 ")) 2 (-1)
    = Some (Terminated length_error (0, mkStream (Some "run_wf_ch2.csv") []))
  ∧ export_single_channel always "run.adr" (Some (bytes "xab ")) 2 (-1)
    = Some (Finished (0, mkStream (Some "run_wf_ch2.csv") [])).
Proof. split_and!; by vm_compute. Qed.

(** C6: when the file ends before the body announced by the last header
    is complete, the scan stops there with the state it had, in both
    drivers.  First from any point of any scan: [topic] is the topic text
    read so far, [t] what is still to come of it.  Then for whole runs: a
    file of complete frames followed by a truncated one gives the run of
    the complete frames alone. *)
Theorem truncated_frame_ends_run
    (creatable : string → bool) (input_file : string)
    (fs : list (list byte * list byte)) (topic t partial : list byte) (n : Z)
    (channel_id max_waveforms max_per_channel exclude_channel : Z) :
  header_ok (topic ++ t) n → size partial < n →
  (∀ St (on_packet : WaveformPacket → St → St * bool) fuel st,
      (length (frame t partial) < fuel)%nat →
      scan_loop on_packet fuel (frame t partial) topic st = Finished st)
  ∧ (topic = [] → Forall frame_ok fs →
     export_single_channel creatable input_file
       (Some (frames_bytes fs ++ frame t partial)) channel_id max_waveforms
     = export_single_channel creatable input_file
         (Some (frames_bytes fs)) channel_id max_waveforms
     ∧ export_all_channels creatable input_file
         (Some (frames_bytes fs ++ frame t partial))
         max_per_channel exclude_channel
       = export_all_channels creatable input_file
           (Some (frames_bytes fs)) max_per_channel exclude_channel).
Proof.
  intros Hh Hshort. split.
  - intros St on_packet fuel st Hfuel.
    destruct Hh as (Hsp & Hn & size_pos & Hr & Hs). unfold frame in *.
    rewrite (scan_loop_fuel _ _ (length t + S (S (length partial))))
      by (rewrite ?length_app in *; simpl in *; lia).
    rewrite scan_loop_topic by (intros Hin; apply Hsp, elem_of_app; by right).
    cbn [scan_loop].
    rewrite bool_decide_false by (intros Hne; by apply Hne).
    rewrite Hr, Hs.
    rewrite bool_decide_false by lia.
    by rewrite bool_decide_true by done.
  - intros -> Hfs. simpl in Hh. unfold export_single_channel, export_all_channels.
    split.
    + case_bool_decide; [done|]. f_equal. by eapply scan_frames_truncated.
    + f_equal. by eapply scan_frames_truncated.
Qed.

Lemma header_okb_ok topic n : header_okb topic n = true → header_ok topic n.
Proof.
  unfold header_okb, header_ok. intros H.
  apply andb_true_iff in H as [H H3]. apply andb_true_iff in H as [H1 H2].
  apply bool_decide_eq_true in H1, H2. split_and!; [done..|].
  destruct (rfind topic (bytes "_s")) as [size_pos|]; [|done].
  exists size_pos. split; [done|].
  destruct (stoi _) as [e|m]; [done|].
  apply bool_decide_eq_true in H3. by subst.
Qed.

Lemma truncated_frame_ends_run_witness :
  header_ok ([] ++ waveform_topic 50) 50
  ∧ size (wire packet_A) < 50
  ∧ export_single_channel always "run.adr"
      (Some (frames_bytes [waveform_frame (wire packet_A ++ wire packet_B)]
             ++ frame (waveform_topic 50) (wire packet_A))) 2 (-1)
    = export_single_channel always "run.adr"
        (Some (frames_bytes [waveform_frame (wire packet_A ++ wire packet_B)]))
        2 (-1)
  ∧ export_all_channels always "run.adr"
      (Some (frames_bytes [waveform_frame (wire packet_A ++ wire packet_B)]
             ++ frame (waveform_topic 50) (wire packet_A))) (-1) (-1)
    = export_all_channels always "run.adr"
        (Some (frames_bytes [waveform_frame (wire packet_A ++ wire packet_B)]))
        (-1) (-1).
Proof.
  assert (H1 : header_ok ([] ++ waveform_topic 50) 50)
    by (apply header_okb_ok; by vm_compute).
  assert (H2 : size (wire packet_A) < 50) by (by vm_compute).
  split_and!; [exact H1|exact H2|..];
    apply (truncated_frame_ends_run always "run.adr"
             [waveform_frame (wire packet_A ++ wire packet_B)]
             [] (waveform_topic 50) (wire packet_A) 50 2 (-1) (-1) (-1) H1 H2);
    try reflexivity;
    (constructor; [apply header_okb_ok; by vm_compute|constructor]).
Defined.

(** ** Single-channel mode *)

(** C10: a target channel outside 0..255 equals no decoded channel, which
    is an 8-bit value.  Whatever the file holds, the output file is created
    and is still empty, with a count of 0, when the run ends. *)
Theorem foreign_channel_exports_nothing
    (creatable : string → bool) (input_file : string) (input : list byte)
    (channel_id max_waveforms : Z) :
  ¬ (0 ≤ channel_id ≤ 255) →
  creatable (csv_name input_file channel_id) = true →
  ∃ o, export_single_channel creatable input_file (Some input)
         channel_id max_waveforms = Some o
       ∧ final_state o
         = (0, mkStream (Some (csv_name input_file channel_id)) [])
       ∧ is_out_of_fuel o = false
       ∧ Forall (λ pkt, channel pkt ≠ channel_id)
                (final_state (stream_packets input)).
Proof.
  intros Hch Hcr. unfold export_single_channel, open_out. rewrite Hcr.
  rewrite bool_decide_false by done.
  eexists. split; [reflexivity|]. split_and!.
  - apply (scan_loop_invariant _ (λ st, st = (0, mkStream (Some _) [])));
      [|done].
    intros pkt st [Hc _] ->. unfold single_packet.
    rewrite bool_decide_false by lia. done.
  - apply scan_total.
  - eapply Forall_impl; [apply stream_packets_decoded_ok|].
    intros pkt [Hc _]. lia.
Qed.

Lemma foreign_channel_exports_nothing_witness :
  ¬ (0 ≤ -1 ≤ 255)
  ∧ always (csv_name "run.adr" (-1)) = true
  ∧ ∃ o, export_single_channel always "run.adr" (Some two_frames) (-1) 5
         = Some o
         ∧ final_state o = (0, mkStream (Some (csv_name "run.adr" (-1))) [])
         ∧ is_out_of_fuel o = false
         ∧ Forall (λ pkt, channel pkt ≠ -1)
                  (final_state (stream_packets two_frames)).
Proof.
  split; [lia|]. split; [reflexivity|].
  apply (foreign_channel_exports_nothing always "run.adr" two_frames (-1) 5);
    [lia|reflexivity].
Defined.

Lemma replay_single channel_id max_waveforms pkts exported out name :
  0 < max_waveforms → exported < max_waveforms → opened out = Some name →
  let matching := on_channel channel_id pkts in
  let k := Z.to_nat (max_waveforms - exported) in
  replay (single_packet channel_id max_waveforms) pkts (exported, out)
  = ((exported + Z.of_nat (length (take k matching)),
      mkStream (Some name) (rows out ++ csv_rows (take k matching))),
     bool_decide (k ≤ length matching)%nat).
Proof.
  intros HM. revert exported out.
  induction pkts as [|pkt pkts IH]; intros exported [o r] Hlt Ho;
    simpl in Ho; subst o.
  - change (on_channel channel_id []) with (@nil WaveformPacket).
    simpl. rewrite take_nil. simpl. rewrite app_nil_r, Z.add_0_r.
    by rewrite bool_decide_false by lia.
  - unfold on_channel in *. cbn [replay]. unfold single_packet at 1.
    case_bool_decide as Hch.
    + rewrite filter_cons_True by done.
      destruct (Z.to_nat (max_waveforms - exported)) as [|k] eqn:Ek; [lia|].
      unfold write_samples_csv. simpl opened. cbn iota.
      simpl take. simpl length. unfold csv_rows. rewrite fmap_cons.
      case_bool_decide as Hstop.
      * assert (k = 0%nat) as -> by lia. rewrite take_0.
        rewrite bool_decide_true by lia. simpl. done.
      * rewrite (IH (exported + 1) (mkStream (Some name) _)) by (done || lia).
        replace (Z.to_nat (max_waveforms - (exported + 1))) with k by lia.
        simpl rows. rewrite <- app_assoc. simpl.
        f_equal; [f_equal; lia|].
        apply bool_decide_ext. lia.
    + rewrite filter_cons_False by done. by apply IH.
Qed.

(** ** Bodies made of complete packets *)

Lemma slice_app (pre x post : list byte) :
  take (length x) (drop (length pre) (pre ++ x ++ post)) = x.
Proof. by rewrite drop_app_length, take_app_length. Qed.

Lemma field_at (pre x post : list byte) (pos : Z) (n : nat) :
  pos = size pre → n = length x →
  take n (drop (Z.to_nat pos) (pre ++ x ++ post)) = x.
Proof.
  intros -> ->. unfold size. rewrite Nat2Z.id. apply slice_app.
Qed.

Lemma length_samples_bytes (l : list Z) :
  length (concat (le_bytes 2 <$> l)) = (2 * length l)%nat.
Proof.
  induction l as [|s l IH]; [done|].
  rewrite fmap_cons. cbn [concat].
  rewrite length_app, IH, length_le_bytes. simpl. lia.
Qed.

Lemma size_wire p : size (wire p) = 14 + 2 * raw_count p.
Proof.
  unfold size, wire, raw_count.
  rewrite !length_app, !length_le_bytes, length_samples_bytes. lia.
Qed.

Lemma pairs_le_samples (l : list Z) (rest : list byte) :
  Forall (λ s, 0 ≤ s < 2 ^ 16) l →
  pairs_le (length l) (concat (le_bytes 2 <$> l) ++ rest) = l.
Proof.
  induction 1 as [|s l Hs Hl IH]; [done|].
  rewrite fmap_cons. cbn [concat length pairs_le].
  rewrite <- app_assoc.
  change (le_bytes 2 s) with [byte_of s; byte_of (s / 256)].
  cbn [app take drop]. rewrite take_0, drop_0, IH. f_equal. cbn [le_value].
  pose proof (byte_val_of s) as H1. pose proof (byte_val_of (s / 256)) as H2.
  rewrite H1, H2.
  rewrite (Z.mod_small (s / 256)) by (split; [apply Z.div_pos; lia|
    apply Z.div_lt_upper_bound; lia]).
  pose proof (Z.div_mod s 256). lia.
Qed.

(** A well-formed packet on the wire is decoded wherever it lies in the
    buffer, and the position moves to its end. *)
Lemma read_wire (pre rest : list byte) (p : raw_packet) :
  well_formed p → size (pre ++ wire p ++ rest) < 2 ^ 64 →
  read_waveform_packet (pre ++ wire p ++ rest) (size pre)
  = ReadTrue (size pre + size (wire p)) (decoded p).
Proof.
  intros (Hts & Hch & Hcnt & Hg & Hsm) Hsz.
  assert (Hc0 : 0 ≤ raw_count p) by (unfold raw_count; lia).
  set (buffer := pre ++ wire p ++ rest) in *.
  set (f1 := le_bytes 8 (raw_timestamp p)).
  set (f2 := le_bytes 1 (raw_channel p)).
  set (f3 := le_bytes 4 (raw_count p)).
  set (f4 := le_bytes 1 (raw_gates p)).
  set (f5 := concat (le_bytes 2 <$> raw_samples p)).
  assert (Hsize : size buffer = size pre + size (wire p) + size rest)
    by (unfold buffer, size; rewrite !length_app; lia).
  pose proof (size_wire p) as Hw.
  assert (E1 : take 8 (drop (Z.to_nat (size pre)) buffer) = f1).
  { unfold buffer, wire. fold f1 f2 f3 f4 f5. rewrite <- !app_assoc.
    apply field_at; [done|]. unfold f1. by rewrite length_le_bytes. }
  assert (E2 : take 1 (drop (Z.to_nat (size pre + 8)) buffer) = f2).
  { replace buffer with ((pre ++ f1) ++ f2 ++ (f3 ++ f4 ++ f5 ++ rest))
      by (unfold buffer, wire; fold f1 f2 f3 f4 f5; by rewrite <- !app_assoc).
    apply field_at; unfold size, f1, f2;
      rewrite ?length_app, ?length_le_bytes; lia. }
  assert (E3 : take 4 (drop (Z.to_nat (size pre + 9)) buffer) = f3).
  { replace buffer with ((pre ++ f1 ++ f2) ++ f3 ++ (f4 ++ f5 ++ rest))
      by (unfold buffer, wire; fold f1 f2 f3 f4 f5; by rewrite <- !app_assoc).
    apply field_at; unfold size, f1, f2, f3;
      rewrite ?length_app, ?length_le_bytes; lia. }
  assert (E4 : take 1 (drop (Z.to_nat (size pre + 13)) buffer) = f4).
  { replace buffer with ((pre ++ f1 ++ f2 ++ f3) ++ f4 ++ (f5 ++ rest))
      by (unfold buffer, wire; fold f1 f2 f3 f4 f5; by rewrite <- !app_assoc).
    apply field_at; unfold size, f1, f2, f3, f4;
      rewrite ?length_app, ?length_le_bytes; lia. }
  assert (E5 : drop (Z.to_nat (size pre + 14)) buffer = f5 ++ rest).
  { replace buffer with ((pre ++ f1 ++ f2 ++ f3 ++ f4) ++ (f5 ++ rest))
      by (unfold buffer, wire; fold f1 f2 f3 f4 f5; by rewrite <- !app_assoc).
    replace (Z.to_nat (size pre + 14))
      with (length (pre ++ f1 ++ f2 ++ f3 ++ f4))
      by (unfold size, f1, f2, f3, f4;
          rewrite ?length_app, ?length_le_bytes; lia).
    apply drop_app_length. }
  assert (V3 : le_value f3 = raw_count p)
    by (apply le_value_bytes_small; change (256 ^ Z.of_nat 4) with (2 ^ 32); lia).
  pose proof (read_in buffer (size pre) Hsz) as Hread.
  cbv zeta in Hread. rewrite E1, E2, E3, E4, E5, V3 in Hread.
  rewrite Hread by (unfold size in *; lia).
  rewrite Hw. f_equal; [lia|]. unfold decoded. f_equal.
  - apply le_value_bytes_small. change (256 ^ Z.of_nat 8) with (2 ^ 64). lia.
  - apply le_value_bytes_small. change (256 ^ Z.of_nat 1) with (2 ^ 8). lia.
  - apply le_value_bytes_small. change (256 ^ Z.of_nat 1) with (2 ^ 8). lia.
  - f_equal. unfold raw_count. rewrite Nat2Z.id. by apply pairs_le_samples.
Qed.

Lemma demux_wire {St} (on_packet : WaveformPacket → St → St * bool)
    (ps : list raw_packet) (pre : list byte) (fuel : nat) (st : St) :
  Forall well_formed ps →
  size (pre ++ concat (wire <$> ps)) < 2 ^ 64 →
  (length ps < fuel)%nat →
  demux_loop on_packet fuel (pre ++ concat (wire <$> ps)) (size pre) st
  = resume_body on_packet st
      (inl (size (pre ++ concat (wire <$> ps)), decoded <$> ps)).
Proof.
  intros Hwf. revert pre fuel st.
  induction Hwf as [|p ps Hp Hps IH]; intros pre fuel st Hsz Hf.
  - destruct fuel as [|fuel]; [simpl in Hf; lia|].
    simpl. rewrite app_nil_r. by rewrite bool_decide_false by lia.
  - destruct fuel as [|fuel]; [simpl in Hf; lia|].
    rewrite !fmap_cons in *. cbn [concat] in *. cbn [demux_loop].
    pose proof (size_wire p) as Hw.
    assert (0 ≤ raw_count p) by (unfold raw_count; lia).
    rewrite bool_decide_true
      by (unfold size in *; rewrite !length_app; lia).
    rewrite read_wire by done.
    cbn [resume_body replay].
    destruct (on_packet (decoded p) st) as [st' []] eqn:E; [done|].
    replace (size pre + size (wire p)) with (size (pre ++ wire p))
      by (unfold size; rewrite length_app; lia).
    replace (pre ++ wire p ++ concat (wire <$> ps))
      with ((pre ++ wire p) ++ concat (wire <$> ps))
      by (by rewrite <- app_assoc).
    rewrite IH; [done| |simpl in Hf; lia].
    by rewrite <- app_assoc.
Qed.

Lemma length_wire_body (ps : list raw_packet) :
  (length ps ≤ length (concat (wire <$> ps)))%nat.
Proof.
  induction ps as [|p ps IH]; [done|].
  rewrite fmap_cons. cbn [concat length]. rewrite length_app.
  pose proof (size_wire p). unfold size, raw_count in *. lia.
Qed.

(** C9: on a body that is exactly [K] well-formed packets one after the
    other, the packet loop decodes those [K] packets in their order on the
    wire and leaves with the position at the end of the body.  This holds
    for the loop of either driver: its per-packet block is run on exactly
    these packets, until it leaves through [goto done]. *)
Theorem complete_body_decoded (ps : list raw_packet) :
  Forall well_formed ps →
  size (concat (wire <$> ps)) < 2 ^ 64 →
  let body := concat (wire <$> ps) in
  body_packets body = inl (size body, decoded <$> ps)
  ∧ length (decoded <$> ps) = length ps
  ∧ ∀ St (on_packet : WaveformPacket → St → St * bool) (st : St),
      demux_loop on_packet (S (length body)) body 0 st
      = resume_body on_packet st (inl (size body, decoded <$> ps)).
Proof.
  intros Hwf Hsz body.
  assert (Hgen : ∀ St (on_packet : WaveformPacket → St → St * bool) (st : St),
      demux_loop on_packet (S (length body)) body 0 st
      = resume_body on_packet st (inl (size body, decoded <$> ps))).
  { intros St on_packet st.
    apply (demux_wire on_packet ps [] (S (length body)) st Hwf Hsz).
    pose proof (length_wire_body ps). unfold body. lia. }
  split_and!; [|by rewrite length_fmap|done].
  unfold body_packets. rewrite Hgen. simpl.
  assert (Hrec : ∀ l acc, replay record_packet l acc = (acc ++ l, false)).
  { induction l as [|x l IH]; intros acc; simpl; [by rewrite app_nil_r|].
    rewrite IH. by rewrite <- app_assoc. }
  by rewrite Hrec.
Qed.

Lemma complete_body_decoded_witness :
  Forall well_formed [packet_A; packet_B; packet_C]
  ∧ size (concat (wire <$> [packet_A; packet_B; packet_C])) < 2 ^ 64
  ∧ body_packets (concat (wire <$> [packet_A; packet_B; packet_C]))
    = inl (size (concat (wire <$> [packet_A; packet_B; packet_C])),
           decoded <$> [packet_A; packet_B; packet_C]).
Proof.
  assert (H1 : Forall well_formed [packet_A; packet_B; packet_C]).
  { repeat constructor; simpl; lia. }
  assert (H2 : size (concat (wire <$> [packet_A; packet_B; packet_C])) < 2 ^ 64)
    by (by vm_compute).
  split_and!; [exact H1|exact H2|].
  exact (proj1 (complete_body_decoded [packet_A; packet_B; packet_C] H1 H2)).
Defined.

(** ** All-channels mode *)

Section AllChannels.
Variable creatable : string → bool.
Variable input_file : string.
Variables max_per_channel exclude_channel : Z.

Let on_packet := all_packet creatable input_file max_per_channel
                   exclude_channel.

Lemma all_packet_continues pkt st : (on_packet pkt st).2 = false.
Proof.
  unfold on_packet, all_packet.
  repeat (case_bool_decide || case_match); done.
Qed.

(** One packet changes the entries of its own channel only, and not even
    those when it is on the excluded channel. *)
Lemma all_packet_view pkt st ch :
  view (on_packet pkt st).1 ch
  = if bool_decide (ch = channel pkt ∧ ch ≠ exclude_channel)
    then step_view creatable input_file max_per_channel pkt (view st ch)
    else view st ch.
Proof.
  destruct st as [outputs counts].
  unfold on_packet, all_packet, view, step_view, ensure_sink,
    write_and_count, subscript, subscript_out.
  case_bool_decide as Hex.
  { rewrite bool_decide_false by (intros [-> ?]; done). done. }
  destruct (decide (ch = channel pkt)) as [->|Hne].
  - rewrite (bool_decide_true (_ ∧ _)) by done. simpl.
    destruct (outputs !! channel pkt) as [f|] eqn:Ho;
      destruct (counts !! channel pkt) as [n|] eqn:Hc;
      repeat (case_bool_decide || simpl || simplify_map_eq);
      try done; try lia.
  - rewrite (bool_decide_false (_ ∧ _)) by (by intros [? ?]).
    repeat (case_bool_decide || case_match || simpl in * || simplify_map_eq);
      done.
Qed.
End AllChannels.

Lemma capped_snoc {A} (L : Z) (l : list A) (x : A) :
  capped L (l ++ [x])
  = if bool_decide (L ≤ 0 ∨ Z.of_nat (length (capped L l)) < L)
    then capped L l ++ [x] else capped L l.
Proof.
  unfold capped. case_bool_decide as HL.
  - by rewrite bool_decide_true by (by left).
  - rewrite length_take. case_bool_decide as Hlt.
    + destruct Hlt as [?|Hlt]; [lia|].
      rewrite !take_ge by (rewrite ?length_app; simpl; lia). done.
    + rewrite take_app_le by lia. done.
Qed.

Lemma length_capped {A} (L : Z) (l : list A) :
  Z.of_nat (length (capped L l))
  = if bool_decide (L ≤ 0) then Z.of_nat (length l)
    else Z.min L (Z.of_nat (length l)).
Proof.
  unfold capped. case_bool_decide; [done|]. rewrite length_take. lia.
Qed.

Lemma on_channel_snoc ch pkts pkt :
  on_channel ch (pkts ++ [pkt])
  = on_channel ch pkts ++ (if bool_decide (channel pkt = ch) then [pkt] else []).
Proof.
  unfold on_channel. rewrite filter_app. f_equal.
  case_bool_decide.
  - by rewrite filter_cons_True.
  - by rewrite filter_cons_False.
Qed.

Lemma on_channel_nonempty ch pkts :
  on_channel ch pkts ≠ [] ↔ ∃ pkt, pkt ∈ pkts ∧ channel pkt = ch.
Proof.
  unfold on_channel. split.
  - intros Hne. destruct (filter _ pkts) as [|pkt l] eqn:E; [done|].
    exists pkt.
    assert (pkt ∈ filter (λ p, channel p = ch) pkts) as Hf
      by (rewrite E; left).
    apply list_elem_of_filter in Hf as [? ?]. done.
  - intros (pkt & Hin & Hch) E.
    assert (pkt ∈ filter (λ p, channel p = ch) pkts) as Hf
      by (by apply list_elem_of_filter).
    rewrite E in Hf. by apply not_elem_of_nil in Hf.
Qed.

Section AllChannelsRun.
Variable creatable : string → bool.
Variable input_file : string.
Variables max_per_channel exclude_channel : Z.

Let on_packet := all_packet creatable input_file max_per_channel
                   exclude_channel.

Lemma replay_all_continues pkts st : (replay on_packet pkts st).2 = false.
Proof.
  revert st. induction pkts as [|pkt pkts IH]; intros st; simpl; [done|].
  pose proof (all_packet_continues creatable input_file max_per_channel
                exclude_channel pkt st) as Hc.
  fold on_packet in Hc.
  destruct (on_packet pkt st) as [st' stop]. simpl in Hc. subst stop.
  apply IH.
Qed.

(** The entries of every channel after any list of packets. *)
Lemma replay_all_view pkts ch :
  view (replay on_packet pkts (∅, ∅)).1 ch
  = view_after creatable input_file max_per_channel exclude_channel ch pkts.
Proof.
  induction pkts as [|pkt pkts IH] using rev_ind.
  - unfold view, view_after. simpl. rewrite !lookup_empty.
    by rewrite bool_decide_false by (by intros [_ ?]).
  - rewrite replay_app.
    pose proof (replay_all_continues pkts (∅, ∅)) as Hc.
    destruct (replay on_packet pkts (∅, ∅)) as [st stop].
    simpl in Hc, IH. subst stop. cbn [replay].
    pose proof (all_packet_continues creatable input_file max_per_channel
                  exclude_channel pkt st) as Hc.
    pose proof (all_packet_view creatable input_file max_per_channel
                  exclude_channel pkt st ch) as Hv.
    fold on_packet in Hc, Hv.
    destruct (on_packet pkt st) as [st' stop]. simpl in Hc, Hv. subst stop.
    simpl. rewrite Hv, IH. clear Hv IH.
    unfold view_after. rewrite on_channel_snoc.
    set (m := on_channel ch pkts).
    case_bool_decide as Hsel.
    + destruct Hsel as [-> Hex].
      rewrite (bool_decide_true (channel pkt = channel pkt)) by done.
      rewrite (bool_decide_true (_ ∧ m ++ [pkt] ≠ []))
        by (split; [done|by destruct m]).
      unfold step_view, sink_after, open_out, write_samples_csv.
      rewrite capped_snoc.
      destruct m as [|p0 m0] eqn:Em.
      * rewrite bool_decide_false by (by intros [_ ?]). simpl.
        assert (Hc0 : capped max_per_channel (@nil WaveformPacket) = [])
          by (unfold capped; case_bool_decide; [done|by rewrite take_nil]).
        rewrite Hc0. simpl.
        destruct (creatable _);
          repeat (case_bool_decide || simpl); try done; lia.
      * rewrite bool_decide_true by done. rewrite <- Em. simpl.
        destruct (creatable _); simpl;
          case_bool_decide; simpl; try done.
        -- unfold csv_rows. rewrite fmap_app, length_app. simpl.
           do 2 f_equal. lia.
        -- rewrite length_app. simpl. do 2 f_equal. lia.
    + destruct (decide (channel pkt = ch)) as [Hch|Hch].
      * assert (ch = exclude_channel) as ->.
        { destruct (decide (ch = exclude_channel)) as [|Hne]; [done|].
          exfalso. apply Hsel. by split. }
        rewrite !(bool_decide_false (exclude_channel ≠ exclude_channel ∧ _))
          by (by intros [? _]).
        done.
      * rewrite (bool_decide_false (channel pkt = ch)) by done.
        by rewrite app_nil_r.
Qed.

(** The final state of a run, channel by channel. *)
Lemma export_all_channels_view input :
  ∃ o, export_all_channels creatable input_file (Some input)
         max_per_channel exclude_channel = Some o
       ∧ is_out_of_fuel o = false
       ∧ o = with_state (stream_packets input) (final_state o)
       ∧ ∀ ch, view (final_state o) ch
               = view_after creatable input_file max_per_channel
                   exclude_channel ch (final_state (stream_packets input)).
Proof.
  unfold export_all_channels. eexists. split; [reflexivity|].
  split; [apply scan_total|].
  rewrite scan_replay. unfold resume. fold on_packet.
  pose proof (replay_all_continues (final_state (stream_packets input)) (∅, ∅))
    as Hc.
  pose proof (replay_all_view (final_state (stream_packets input))) as Hv.
  destruct (replay on_packet _ (∅, ∅)) as [st stop].
  simpl in Hc, Hv. subst stop.
  assert (Hfs : final_state (with_state (stream_packets input) st) = st)
    by (by destruct (stream_packets input)).
  rewrite Hfs. done.
Qed.
End AllChannelsRun.

(** C5: whatever the file holds, the maps [outputs] and [counts] have no
    entry for the excluded channel; every decoded packet on another channel
    has the sink of its own channel, which holds the rows of the packets of
    that channel, in order, up to the cap; and sinks and counters exist only
    for channels on which a packet has been decoded. *)
Theorem all_channels_routing
    (creatable : string → bool) (input_file : string) (input : list byte)
    (max_per_channel exclude_channel : Z) :
  let pkts := final_state (stream_packets input) in
  ∃ o outputs counts,
    export_all_channels creatable input_file (Some input)
      max_per_channel exclude_channel = Some o
    ∧ final_state o = (outputs, counts)
    ∧ outputs !! exclude_channel = None
    ∧ counts !! exclude_channel = None
    ∧ (∀ pkt, pkt ∈ pkts → channel pkt ≠ exclude_channel →
         outputs !! channel pkt
         = Some (sink_after creatable input_file max_per_channel (channel pkt)
                   (on_channel (channel pkt) pkts))
         ∧ is_Some (counts !! channel pkt))
    ∧ (∀ ch, is_Some (outputs !! ch) ∨ is_Some (counts !! ch) →
         ch ≠ exclude_channel ∧ ∃ pkt, pkt ∈ pkts ∧ channel pkt = ch).
Proof.
  intros pkts.
  destruct (export_all_channels_view creatable input_file max_per_channel
              exclude_channel input) as (o & Ho & _ & _ & Hv).
  fold pkts in Hv. destruct (final_state o) as [outputs counts] eqn:Hfs.
  exists o, outputs, counts. unfold view, view_after in Hv. simpl in Hv.
  split_and!; try done.
  - specialize (Hv exclude_channel).
    rewrite bool_decide_false in Hv by (by intros [? _]). congruence.
  - specialize (Hv exclude_channel).
    rewrite bool_decide_false in Hv by (by intros [? _]). congruence.
  - intros pkt Hin Hex. specialize (Hv (channel pkt)).
    rewrite bool_decide_true in Hv
      by (split; [done|apply on_channel_nonempty; by exists pkt]).
    injection Hv as -> ->. by split.
  - intros ch Hsome. specialize (Hv ch).
    case_bool_decide as Hc.
    + destruct Hc as [Hex Hne]. split; [done|].
      by apply on_channel_nonempty.
    + injection Hv as Ho' Hc'. rewrite Ho', Hc' in Hsome.
      destruct Hsome as [[? ?]|[? ?]]; done.
Qed.


(** ** Files made of waveform frames *)

Lemma replay_record pkts acc :
  replay record_packet pkts acc = (acc ++ pkts, false).
Proof.
  revert acc. induction pkts as [|pkt pkts IH]; intros acc; simpl.
  - by rewrite app_nil_r.
  - rewrite IH. by rewrite <- app_assoc.
Qed.

(** The packets of a file of waveform frames whose bodies are complete
    well-formed packets are the decodings of those packets, frame after
    frame. *)
Lemma stream_packets_wire (fs : list (list byte * list raw_packet)) :
  Forall (λ f, header_ok f.1 (size (concat (wire <$> f.2)))
               ∧ find f.1 (bytes "data_abcd_waveforms") = Some 0%nat
               ∧ Forall well_formed f.2) fs →
  stream_packets (frames_bytes ((λ f, (f.1, concat (wire <$> f.2))) <$> fs))
  = Finished (decoded <$> concat (snd <$> fs)).
Proof.
  unfold stream_packets.
  enough (Hacc : ∀ acc,
    Forall (λ f, header_ok f.1 (size (concat (wire <$> f.2)))
                 ∧ find f.1 (bytes "data_abcd_waveforms") = Some 0%nat
                 ∧ Forall well_formed f.2) fs →
    scan record_packet
      (frames_bytes ((λ f, (f.1, concat (wire <$> f.2))) <$> fs)) acc
    = Finished (acc ++ (decoded <$> concat (snd <$> fs)))) by apply Hacc.
  intros acc Hfs. revert acc.
  induction Hfs as [|[t ps] fs (Hh & Hw & Hwf) Hfs IH]; intros acc.
  - simpl. rewrite scan_nil. by rewrite app_nil_r.
  - simpl in Hh, Hw, Hwf. unfold frames_bytes in *.
    rewrite !fmap_cons. cbn [concat fst snd].
    rewrite scan_frame by done.
    unfold frame_step. rewrite bool_decide_true by done.
    assert (Hsz : size (concat (wire <$> ps)) < 2 ^ 64).
    { destruct Hh as (_ & _ & p & _ & Hs). apply stoi_range in Hs.
      unfold INT_MAX in Hs. lia. }
    pose proof (length_wire_body ps) as Hlen.
    rewrite (demux_wire record_packet ps [] _ acc Hwf Hsz) by (simpl; lia).
    cbn [resume_body]. rewrite replay_record.
    rewrite IH. by rewrite fmap_app, app_assoc.
Qed.

(** The round-trip scenario: packet A with six samples and packet B with
    two, both on channel 2, exported without limit, give the two lines
    [10,20] and [5,6]. *)
Example round_trip_scenario :
  export_single_channel always "run.adr"
    (Some (frames_bytes [waveform_frame (wire packet_A ++ wire packet_B)]))
    2 (-1)
  = Some (Finished (2, mkStream (Some "run_wf_ch2.csv")
                         ["10,20" +:+ newline; "5,6" +:+ newline])).
Proof. by vm_compute. Qed.

(** * Further properties of the exporter *)

(** Concrete frames are checked by evaluation. *)
Ltac frames_ok :=
  repeat (constructor; [apply header_okb_ok; by vm_compute|]);
  constructor.

(** ** Single-channel mode without a limit *)

Lemma replay_single_unlimited channel_id max_waveforms pkts exported out name :
  max_waveforms ≤ 0 → opened out = Some name →
  replay (single_packet channel_id max_waveforms) pkts (exported, out)
  = ((exported + Z.of_nat (length (on_channel channel_id pkts)),
      mkStream (Some name) (rows out ++ csv_rows (on_channel channel_id pkts))),
     false).
Proof.
  intros HM. revert exported out.
  induction pkts as [|pkt pkts IH]; intros exported [o r] Ho;
    simpl in Ho; subst o.
  - change (on_channel channel_id []) with (@nil WaveformPacket).
    simpl. by rewrite app_nil_r, Z.add_0_r.
  - unfold on_channel in *. cbn [replay]. unfold single_packet at 1.
    case_bool_decide as Hch.
    + rewrite filter_cons_True by done.
      unfold write_samples_csv. simpl opened. cbn iota.
      rewrite bool_decide_false by lia.
      rewrite (IH (exported + 1) (mkStream (Some name) _)) by done.
      simpl rows. rewrite <- app_assoc. simpl length.
      unfold csv_rows. rewrite fmap_cons. simpl.
      do 2 f_equal. lia.
    + rewrite filter_cons_False by done. by apply IH.
Qed.

(** X2: raising a positive limit only adds rows: the rows written under
    the limit [M] are the first rows written under any limit [M' ≥ M], and
    the first [M] rows written without a limit. *)
Theorem single_channel_limit_prefix
    (creatable : string → bool) (input_file : string) (input : list byte)
    (channel_id M M' : Z) :
  0 < M → M ≤ M' →
  creatable (csv_name input_file channel_id) = true →
  ∃ o o' o'',
    export_single_channel creatable input_file (Some input) channel_id M
    = Some o
    ∧ export_single_channel creatable input_file (Some input) channel_id M'
      = Some o'
    ∧ export_single_channel creatable input_file (Some input) channel_id 0
      = Some o''
    ∧ rows (final_state o).2 = take (Z.to_nat M) (rows (final_state o').2)
    ∧ rows (final_state o).2 = take (Z.to_nat M) (rows (final_state o'').2)
    ∧ (final_state o).1 ≤ (final_state o').1 ≤ (final_state o'').1.
Proof.
  intros HM HM' Hcr.
  unfold export_single_channel, open_out. rewrite Hcr.
  rewrite bool_decide_false by done.
  do 3 eexists. split_and!; try reflexivity.
  all: rewrite !scan_replay; unfold resume;
    rewrite !(replay_single _ _ _ _ _ (csv_name input_file channel_id))
      by (done || lia);
    rewrite ?(replay_single_unlimited _ _ _ _ _
               (csv_name input_file channel_id)) by done;
    rewrite !Z.sub_0_r;
    set (m := on_channel channel_id (final_state (stream_packets input)));
    assert (Hfs : ∀ (o : outcome (list WaveformPacket)) (st : Z * ofstream),
               final_state (with_state o st) = st) by (by intros []);
    repeat case_bool_decide; rewrite ?Hfs; simpl;
    unfold csv_rows; rewrite <- ?fmap_take, ?take_take, ?length_take;
    try (f_equal; f_equal; lia); try lia.
Qed.

Lemma single_channel_limit_prefix_witness :
  0 < 1 ∧ 1 ≤ 3
  ∧ always (csv_name "run.adr" 2) = true
  ∧ ∃ o o' o'',
    export_single_channel always "run.adr" (Some two_frames) 2 1 = Some o
    ∧ export_single_channel always "run.adr" (Some two_frames) 2 3 = Some o'
    ∧ export_single_channel always "run.adr" (Some two_frames) 2 0 = Some o''
    ∧ rows (final_state o).2 = take (Z.to_nat 1) (rows (final_state o').2)
    ∧ rows (final_state o).2 = take (Z.to_nat 1) (rows (final_state o'').2)
    ∧ (final_state o).1 ≤ (final_state o').1 ≤ (final_state o'').1.
Proof.
  split; [lia|]. split; [lia|]. split; [reflexivity|].
  apply (single_channel_limit_prefix always "run.adr" two_frames 2 1 3);
    [lia|lia|reflexivity].
Defined.

(** ** The frame scan on complete frames *)

Lemma scan_frames_run {St} (on_packet : WaveformPacket → St → St * bool)
    (fs : list (list byte * list byte)) (rest : list byte) (st : St) :
  Forall frame_ok fs →
  scan on_packet (frames_bytes fs ++ rest) st
  = match frames_run on_packet fs st with
    | inl st' => scan on_packet rest st'
    | inr o => o
    end.
Proof.
  intros Hfs. revert st.
  induction Hfs as [|[t b] fs Hf Hfs IH]; intros st; [done|].
  unfold frames_bytes in *. rewrite fmap_cons. cbn [concat fst snd frames_run].
  rewrite <- app_assoc. rewrite scan_frame by done.
  destruct (frame_step on_packet t b st) as [[p st']|o]; [apply IH|done].
Qed.

(** X3: the scan takes a file of complete frames apart exactly at the
    declared sizes.  Whatever the bodies hold (spaces, text that looks like
    a header), each frame is handled once, in order, with the state the
    frame before left, and the scan goes on with what follows the last
    frame.  This holds for the loops of both drivers. *)
Theorem scan_complete_frames
    (creatable : string → bool) (input_file : string)
    (fs : list (list byte * list byte)) (rest : list byte)
    (channel_id max_waveforms max_per_channel exclude_channel : Z) :
  Forall frame_ok fs →
  (∀ St (on_packet : WaveformPacket → St → St * bool) (st : St),
     scan on_packet (frames_bytes fs ++ rest) st
     = match frames_run on_packet fs st with
       | inl st' => scan on_packet rest st'
       | inr o => o
       end)
  ∧ (creatable (csv_name input_file channel_id) = true →
     export_single_channel creatable input_file (Some (frames_bytes fs))
       channel_id max_waveforms
     = Some match frames_run (single_packet channel_id max_waveforms) fs
                    (0, mkStream (Some (csv_name input_file channel_id)) [])
            with
            | inl st' => Finished st'
            | inr o => o
            end)
  ∧ export_all_channels creatable input_file (Some (frames_bytes fs))
      max_per_channel exclude_channel
    = Some match frames_run (all_packet creatable input_file max_per_channel
                               exclude_channel) fs (∅, ∅) with
           | inl st' => Finished st'
           | inr o => o
           end.
Proof.
  intros Hfs. split_and!.
  - intros St on_packet st. by apply scan_frames_run.
  - intros Hcr. unfold export_single_channel, open_out. rewrite Hcr.
    rewrite bool_decide_false by done. f_equal.
    rewrite <- (app_nil_r (frames_bytes fs)).
    rewrite scan_frames_run by done. by destruct (frames_run _ _ _).
  - unfold export_all_channels. f_equal.
    rewrite <- (app_nil_r (frames_bytes fs)).
    rewrite scan_frames_run by done. by destruct (frames_run _ _ _).
Qed.

Lemma scan_complete_frames_witness :
  Forall frame_ok [(bytes "status_s5", bytes "a _s9"); 
                   waveform_frame (wire packet_A ++ wire packet_B)]
  ∧ export_all_channels always "run.adr"
      (Some (frames_bytes [(bytes "status_s5", bytes "a _s9");
                           waveform_frame (wire packet_A ++ wire packet_B)]))
      (-1) (-1)
    = Some match frames_run (all_packet always "run.adr" (-1) (-1))
                   [(bytes "status_s5", bytes "a _s9");
                    waveform_frame (wire packet_A ++ wire packet_B)] (∅, ∅)
           with
           | inl st' => Finished st'
           | inr o => o
           end.
Proof.
  assert (H : Forall frame_ok
                [(bytes "status_s5", bytes "a _s9");
                 waveform_frame (wire packet_A ++ wire packet_B)]).
  { frames_ok. }
  split; [exact H|].
  exact (proj2 (proj2 (scan_complete_frames always "run.adr" _ [] 2 (-1)
                         (-1) (-1) H))).
Defined.

(** X4: a complete frame whose topic does not begin with
    [data_abcd_waveforms] is read over: the file gives the same run with or
    without it, in both drivers, whatever its body holds. *)
Theorem other_topic_skipped
    (creatable : string → bool) (input_file : string)
    (fs : list (list byte * list byte)) (topic body rest : list byte)
    (channel_id max_waveforms max_per_channel exclude_channel : Z) :
  Forall frame_ok fs → header_ok topic (size body) →
  find topic (bytes "data_abcd_waveforms") ≠ Some 0%nat →
  export_single_channel creatable input_file
    (Some (frames_bytes fs ++ frame topic body ++ rest))
    channel_id max_waveforms
  = export_single_channel creatable input_file
      (Some (frames_bytes fs ++ rest)) channel_id max_waveforms
  ∧ export_all_channels creatable input_file
      (Some (frames_bytes fs ++ frame topic body ++ rest))
      max_per_channel exclude_channel
    = export_all_channels creatable input_file
        (Some (frames_bytes fs ++ rest)) max_per_channel exclude_channel.
Proof.
  intros Hfs Hh Hother.
  assert (Hskip : ∀ St (on_packet : WaveformPacket → St → St * bool) (st : St),
    scan on_packet (frames_bytes fs ++ frame topic body ++ rest) st
    = scan on_packet (frames_bytes fs ++ rest) st).
  { intros St on_packet st. rewrite !scan_frames_run by done.
    destruct (frames_run on_packet fs st) as [st'|o]; [|done].
    rewrite scan_frame by done. unfold frame_step.
    by rewrite bool_decide_false by done. }
  unfold export_single_channel, export_all_channels. split.
  - case_bool_decide; [done|]. f_equal. apply Hskip.
  - f_equal. apply Hskip.
Qed.

Lemma other_topic_skipped_witness :
  Forall frame_ok [waveform_frame (wire packet_A)]
  ∧ header_ok (bytes "status_s5") (size (bytes "a _s9"))
  ∧ find (bytes "status_s5") (bytes "data_abcd_waveforms") ≠ Some 0%nat
  ∧ export_single_channel always "run.adr"
      (Some (frames_bytes [waveform_frame (wire packet_A)]
             ++ frame (bytes "status_s5") (bytes "a _s9")
             ++ frames_bytes [waveform_frame (wire packet_B)])) 2 (-1)
    = export_single_channel always "run.adr"
        (Some (frames_bytes [waveform_frame (wire packet_A)]
               ++ frames_bytes [waveform_frame (wire packet_B)])) 2 (-1).
Proof.
  assert (H1 : Forall frame_ok [waveform_frame (wire packet_A)]).
  { frames_ok. }
  assert (H2 : header_ok (bytes "status_s5") (size (bytes "a _s9")))
    by (apply header_okb_ok; by vm_compute).
  assert (H3 : find (bytes "status_s5") (bytes "data_abcd_waveforms")
               ≠ Some 0%nat) by (by vm_compute).
  split_and!; [exact H1|exact H2|exact H3|].
  exact (proj1 (other_topic_skipped always "run.adr" _ _ _ _ 2 (-1) (-1) (-1)
                  H1 H2 H3)).
Defined.

(** X5: text without [_s] is noise.  A token without a space and without
    [_s], closed by a space, is dropped, and so is whatever follows the
    last frame without a closing space: the file gives the same run
    without them, in both drivers. *)
Theorem noise_is_dropped
    (creatable : string → bool) (input_file : string)
    (fs : list (list byte * list byte)) (junk tail rest : list byte)
    (channel_id max_waveforms max_per_channel exclude_channel : Z) :
  Forall frame_ok fs →
  (" "%byte ∉ junk) → rfind junk (bytes "_s") = None →
  (" "%byte ∉ tail) →
  export_single_channel creatable input_file
    (Some (frames_bytes fs ++ junk ++ " "%byte :: rest))
    channel_id max_waveforms
  = export_single_channel creatable input_file
      (Some (frames_bytes fs ++ rest)) channel_id max_waveforms
  ∧ export_all_channels creatable input_file
      (Some (frames_bytes fs ++ junk ++ " "%byte :: rest))
      max_per_channel exclude_channel
    = export_all_channels creatable input_file
        (Some (frames_bytes fs ++ rest)) max_per_channel exclude_channel
  ∧ export_single_channel creatable input_file
      (Some (frames_bytes fs ++ tail)) channel_id max_waveforms
    = export_single_channel creatable input_file
        (Some (frames_bytes fs)) channel_id max_waveforms
  ∧ export_all_channels creatable input_file
      (Some (frames_bytes fs ++ tail)) max_per_channel exclude_channel
    = export_all_channels creatable input_file
        (Some (frames_bytes fs)) max_per_channel exclude_channel.
Proof.
  intros Hfs Hj Hr Ht.
  assert (Hjunk : ∀ St (on_packet : WaveformPacket → St → St * bool) (st : St),
    scan on_packet (frames_bytes fs ++ junk ++ " "%byte :: rest) st
    = scan on_packet (frames_bytes fs ++ rest) st).
  { intros St on_packet st. rewrite !scan_frames_run by done.
    destruct (frames_run on_packet fs st) as [st'|o]; [|done].
    unfold scan.
    rewrite (scan_loop_fuel _ _ (length junk + S (S (length rest))))
      by (rewrite ?length_app; simpl; lia).
    rewrite scan_loop_topic by done. simpl app at 1.
    remember (S (length rest)) as f eqn:Hf.
    cbn [scan_loop]. subst f.
    rewrite bool_decide_false by (intros Hne; by apply Hne).
    by rewrite Hr. }
  assert (Htail : ∀ St (on_packet : WaveformPacket → St → St * bool) (st : St),
    scan on_packet (frames_bytes fs ++ tail) st
    = scan on_packet (frames_bytes fs) st).
  { intros St on_packet st.
    rewrite <- (app_nil_r (frames_bytes fs)) at 2.
    rewrite !scan_frames_run by done.
    destruct (frames_run on_packet fs st) as [st'|o]; [|done].
    unfold scan.
    rewrite (scan_loop_fuel _ _ (length tail + 1))
      by (rewrite ?length_app; simpl; lia).
    rewrite <- (app_nil_r tail) at 2.
    rewrite scan_loop_topic by done. done. }
  unfold export_single_channel, export_all_channels. split_and!.
  - case_bool_decide; [done|]. f_equal. apply Hjunk.
  - f_equal. apply Hjunk.
  - case_bool_decide; [done|]. f_equal. apply Htail.
  - f_equal. apply Htail.
Qed.

Lemma noise_is_dropped_witness :
  Forall frame_ok [waveform_frame (wire packet_A)]
  ∧ (" "%byte ∉ bytes "junk") ∧ rfind (bytes "junk") (bytes "_s") = None
  ∧ (" "%byte ∉ bytes "data_abcd_wav")
  ∧ export_single_channel always "run.adr"
      (Some (frames_bytes [waveform_frame (wire packet_A)]
             ++ bytes "junk" ++ " "%byte
                :: frames_bytes [waveform_frame (wire packet_B)])) 2 (-1)
    = export_single_channel always "run.adr"
        (Some (frames_bytes [waveform_frame (wire packet_A)]
               ++ frames_bytes [waveform_frame (wire packet_B)])) 2 (-1).
Proof.
  assert (H1 : Forall frame_ok [waveform_frame (wire packet_A)]).
  { frames_ok. }
  assert (H2 : " "%byte ∉ bytes "junk")
    by (apply (bool_decide_unpack _); by vm_compute).
  assert (H3 : rfind (bytes "junk") (bytes "_s") = None) by (by vm_compute).
  assert (H4 : " "%byte ∉ bytes "data_abcd_wav")
    by (apply (bool_decide_unpack _); by vm_compute).
  split_and!; [exact H1|exact H2|exact H3|exact H4|].
  exact (proj1 (noise_is_dropped always "run.adr" _ _ _ _ 2 (-1) (-1) (-1)
                  H1 H2 H3 H4)).
Defined.

(** ** The decoder on counts below 2^31 *)

Lemma read_short buffer pos :
  size buffer < 2 ^ 63 → 0 ≤ pos ≤ size buffer → size buffer < pos + 14 →
  read_waveform_packet buffer pos = ReadFalse pos.
Proof.
  intros Hsz Hp Hs. unfold read_waveform_packet.
  rewrite (wrap64_small (pos + 14)) by lia.
  by rewrite bool_decide_true by lia.
Qed.

Lemma read_false_in buffer pos :
  size buffer < 2 ^ 63 → 0 ≤ pos → pos + 14 ≤ size buffer →
  let count := le_value (take 4 (drop (Z.to_nat (pos + 9)) buffer)) in
  count < 2 ^ 31 → size buffer < pos + 14 + 2 * count →
  read_waveform_packet buffer pos = ReadFalse (pos + 14).
Proof.
  intros Hsz Hp Hfit count Hc Hs.
  assert (Hc0 : 0 ≤ count) by apply le_value_range.
  unfold read_waveform_packet.
  rewrite (wrap64_small (pos + 14)) by lia.
  rewrite bool_decide_false by lia.
  rewrite memcpy_le_in by lia.
  rewrite (wrap64_small (pos + 8)) by lia.
  rewrite memcpy_le_in by lia.
  rewrite (wrap64_small (pos + 8 + 1)) by lia.
  rewrite memcpy_le_in by lia.
  rewrite (wrap64_small (pos + 8 + 1 + 4)) by lia.
  rewrite memcpy_le_in by lia.
  rewrite (wrap64_small (pos + 8 + 1 + 4 + 1)) by lia.
  replace (pos + 8 + 1) with (pos + 9) by lia.
  fold count.
  rewrite (wrap32_small (count * 2)) by lia.
  rewrite (wrap64_small (pos + 9 + 4 + 1 + count * 2)) by lia.
  rewrite bool_decide_true by lia. f_equal. lia.
Qed.

(** X6: as long as the sample count read from the header is below 2^31,
    the decoder does exactly what its two checks say and never reads
    outside the buffer: it returns [false] with [pos] untouched when the
    header does not fit, [false] with [pos] past the header when the
    samples do not fit, and otherwise [true] with the fields read in
    little-endian order and [pos] moved by [14 + 2 * sample_count]. *)
Theorem decoder_exact_below_2_31 (buffer : list byte) (pos : Z) :
  size buffer < 2 ^ 63 → 0 ≤ pos ≤ size buffer →
  let count := le_value (take 4 (drop (Z.to_nat (pos + 9)) buffer)) in
  count < 2 ^ 31 →
  read_waveform_packet buffer pos
  = if bool_decide (size buffer < pos + 14) then ReadFalse pos
    else if bool_decide (size buffer < pos + 14 + 2 * count)
    then ReadFalse (pos + 14)
    else ReadTrue (pos + 14 + 2 * count)
           (mkPacket (le_value (take 8 (drop (Z.to_nat pos) buffer)))
                     (le_value (take 1 (drop (Z.to_nat (pos + 8)) buffer)))
                     count
                     (le_value (take 1 (drop (Z.to_nat (pos + 13)) buffer)))
                     (trim_padding (wire_samples buffer pos count))).
Proof.
  intros Hsz Hp count Hc.
  case_bool_decide as H14; [by apply read_short|].
  case_bool_decide as Hs.
  - apply read_false_in; lia.
  - rewrite <- pairs_le_wire by lia. apply read_in; lia.
Qed.

Lemma decoder_exact_below_2_31_witness :
  size (wire packet_A) < 2 ^ 63 ∧ 0 ≤ 0 ≤ size (wire packet_A)
  ∧ le_value (take 4 (drop (Z.to_nat (0 + 9)) (wire packet_A))) < 2 ^ 31
  ∧ read_waveform_packet (wire packet_A) 0 = ReadTrue 26 (decoded packet_A).
Proof.
  assert (H1 : size (wire packet_A) < 2 ^ 63) by (by vm_compute).
  assert (H2 : 0 ≤ 0 ≤ size (wire packet_A)) by (by vm_compute).
  assert (H3 : le_value (take 4 (drop (Z.to_nat (0 + 9)) (wire packet_A)))
               < 2 ^ 31) by (by vm_compute).
  split; [exact H1|]. split; [exact H2|]. split; [exact H3|].
  rewrite (decoder_exact_below_2_31 (wire packet_A) 0 H1 H2 H3).
  by vm_compute.
Defined.

(** ** Bodies that end in the middle of a packet *)

Lemma take_wire_header (p : raw_packet) (k : nat) :
  (14 ≤ k)%nat →
  take k (wire p)
  = le_bytes 8 (raw_timestamp p) ++ le_bytes 1 (raw_channel p)
    ++ le_bytes 4 (raw_count p) ++ le_bytes 1 (raw_gates p)
    ++ take (k - 14) (concat (le_bytes 2 <$> raw_samples p)).
Proof.
  intros Hk. unfold wire.
  rewrite !app_assoc.
  rewrite take_app_ge by (rewrite !length_app, !length_le_bytes; lia).
  rewrite !length_app, !length_le_bytes. done.
Qed.

Lemma read_truncated (pre tail : list byte) (p : raw_packet) (k : nat) :
  size (pre ++ tail) < 2 ^ 63 →
  tail ≠ [] →
  (length tail < 14)%nat
  ∨ (well_formed p ∧ raw_count p < 2 ^ 31
     ∧ (k < length (wire p))%nat ∧ tail = take k (wire p)) →
  ∃ q, read_waveform_packet (pre ++ tail) (size pre) = ReadFalse q.
Proof.
  intros Hsz Hne Htail.
  assert (Hsize : size (pre ++ tail) = size pre + size tail)
    by (unfold size; rewrite length_app; lia).
  destruct (decide (length tail < 14)%nat) as [Hshort|Hlong].
  { exists (size pre). apply read_short; unfold size in *; lia. }
  destruct Htail as [?|(Hwf & Hc & Hk & ->)]; [lia|].
  exists (size pre + 14).
  assert (Hk14 : (14 ≤ k)%nat) by (rewrite length_take in Hlong; lia).
  pose proof (size_wire p) as Hw.
  assert (Hc0 : 0 ≤ raw_count p) by (unfold raw_count; lia).
  assert (E3 : take 4 (drop (Z.to_nat (size pre + 9))
                         (pre ++ take k (wire p)))
               = le_bytes 4 (raw_count p)).
  { rewrite take_wire_header by done.
    set (f1 := le_bytes 8 (raw_timestamp p)).
    set (f2 := le_bytes 1 (raw_channel p)).
    set (f3 := le_bytes 4 (raw_count p)).
    replace (pre ++ f1 ++ f2 ++ f3 ++ _)
      with ((pre ++ f1 ++ f2) ++ f3
            ++ (le_bytes 1 (raw_gates p)
                ++ take (k - 14) (concat (le_bytes 2 <$> raw_samples p))))
      by (by rewrite <- !app_assoc).
    apply field_at; unfold size, f1, f2, f3;
      rewrite ?length_app, ?length_le_bytes; lia. }
  assert (V3 : le_value (le_bytes 4 (raw_count p)) = raw_count p).
  { apply le_value_bytes_small. change (256 ^ Z.of_nat 4) with (2 ^ 32). lia. }
  assert (Hlt : size (take k (wire p)) = Z.of_nat k)
    by (unfold size; rewrite length_take; lia).
  apply read_false_in; rewrite ?E3, ?V3; unfold size in *; lia.
Qed.

Lemma demux_wire_tail {St} (on_packet : WaveformPacket → St → St * bool)
    (ps : list raw_packet) (pre tail : list byte) (fuel : nat) (st : St)
    (q : Z) :
  Forall well_formed ps →
  size (pre ++ concat (wire <$> ps) ++ tail) < 2 ^ 64 →
  (length ps < fuel)%nat →
  (tail = [] → q = size (pre ++ concat (wire <$> ps))) →
  (tail ≠ [] →
   read_waveform_packet (pre ++ concat (wire <$> ps) ++ tail)
     (size (pre ++ concat (wire <$> ps))) = ReadFalse q) →
  demux_loop on_packet fuel (pre ++ concat (wire <$> ps) ++ tail)
    (size pre) st
  = resume_body on_packet st (inl (q, decoded <$> ps)).
Proof.
  intros Hwf. revert pre fuel st.
  induction Hwf as [|p ps Hp Hps IH]; intros pre fuel st Hsz Hf Hnil Htail.
  - destruct fuel as [|fuel]; [simpl in Hf; lia|].
    simpl in *. rewrite app_nil_r in Htail, Hnil.
    destruct tail as [|c tail].
    + rewrite Hnil by done. rewrite app_nil_r.
      by rewrite bool_decide_false by lia.
    + rewrite bool_decide_true
        by (unfold size; rewrite length_app; simpl; lia).
      by rewrite Htail.
  - destruct fuel as [|fuel]; [simpl in Hf; lia|].
    rewrite !fmap_cons in *. cbn [concat] in *. cbn [demux_loop].
    pose proof (size_wire p) as Hw.
    assert (0 ≤ raw_count p) by (unfold raw_count; lia).
    rewrite <- !app_assoc in *.
    rewrite bool_decide_true
      by (unfold size in *; rewrite !length_app; lia).
    rewrite read_wire by done.
    cbn [resume_body replay].
    destruct (on_packet (decoded p) st) as [st' []] eqn:E; [done|].
    replace (size pre + size (wire p)) with (size (pre ++ wire p))
      by (unfold size; rewrite length_app; lia).
    replace (pre ++ wire p ++ concat (wire <$> ps) ++ tail)
      with ((pre ++ wire p) ++ concat (wire <$> ps) ++ tail) in *
      by (by rewrite <- app_assoc).
    rewrite (IH (pre ++ wire p) fuel st'); [done|done|simpl in Hf; lia|..].
    + intros Hn. rewrite <- !app_assoc. by apply Hnil.
    + intros Hne. rewrite <- !app_assoc in *. by apply Htail.
Qed.

(** X7: a body in which complete well-formed packets are followed by
    fewer than 14 bytes of anything, or by a packet (announcing fewer than
    2^31 samples) that is cut off, yields exactly the complete packets, in
    order; the loop is then left and the rest of the body is abandoned
    without ending the run.  This holds for the loop of either driver. *)
Theorem truncated_packet_abandoned
    (ps : list raw_packet) (tail : list byte) (p : raw_packet) (k : nat) :
  Forall well_formed ps →
  size (concat (wire <$> ps) ++ tail) < 2 ^ 63 →
  (length tail < 14)%nat
  ∨ (well_formed p ∧ raw_count p < 2 ^ 31
     ∧ (k < length (wire p))%nat ∧ tail = take k (wire p)) →
  let body := concat (wire <$> ps) ++ tail in
  ∃ q, body_packets body = inl (q, decoded <$> ps)
       ∧ ∀ St (on_packet : WaveformPacket → St → St * bool) (st : St),
           demux_loop on_packet (S (length body)) body 0 st
           = resume_body on_packet st (inl (q, decoded <$> ps)).
Proof.
  intros Hwf Hsz Htail body.
  assert (Hlen : (length ps < S (length body))%nat).
  { pose proof (length_wire_body ps). unfold body. rewrite length_app. lia. }
  assert (Hq : ∃ q,
    (tail = [] → q = size ([] ++ concat (wire <$> ps)))
    ∧ (tail ≠ [] →
       read_waveform_packet ([] ++ concat (wire <$> ps) ++ tail)
         (size ([] ++ concat (wire <$> ps))) = ReadFalse q)).
  { destruct tail as [|c tail'] eqn:Et.
    - exists (size ([] ++ concat (wire <$> ps))). by split.
    - rewrite <- Et in *. assert (Hne : tail ≠ []) by (by rewrite Et).
      destruct (read_truncated (concat (wire <$> ps)) tail p k Hsz Hne Htail)
        as [q Hq].
      exists q. split; [done|]. intros _. exact Hq. }
  destruct Hq as (q & Hnil & Hfalse).
  assert (Hloop : ∀ St (on_packet : WaveformPacket → St → St * bool) (st : St),
    demux_loop on_packet (S (length body)) body 0 st
    = resume_body on_packet st (inl (q, decoded <$> ps))).
  { intros St on_packet st.
    apply (demux_wire_tail on_packet ps [] tail (S (length body)) st q Hwf);
      [simpl; lia|done|done|done]. }
  exists q. split; [|done].
  unfold body_packets. rewrite Hloop. simpl. by rewrite replay_record.
Qed.

Lemma truncated_packet_abandoned_witness :
  Forall well_formed [packet_A; packet_B]
  ∧ size (concat (wire <$> [packet_A; packet_B]) ++ take 20 (wire packet_C))
    < 2 ^ 63
  ∧ ∃ q, body_packets (concat (wire <$> [packet_A; packet_B])
                       ++ take 20 (wire packet_C))
         = inl (q, decoded <$> [packet_A; packet_B]).
Proof.
  assert (H1 : Forall well_formed [packet_A; packet_B]).
  { repeat constructor; simpl; lia. }
  assert (H2 : size (concat (wire <$> [packet_A; packet_B])
                     ++ take 20 (wire packet_C)) < 2 ^ 63) by (by vm_compute).
  assert (H3 : (length (take 20 (wire packet_C)) < 14)%nat
     ∨ (well_formed packet_C ∧ raw_count packet_C < 2 ^ 31
        ∧ (20 < length (wire packet_C))%nat
        ∧ take 20 (wire packet_C) = take 20 (wire packet_C))).
  { assert (Hc : Forall well_formed [packet_C])
      by (repeat constructor; simpl; lia).
    right. split; [exact (Forall_inv Hc)|].
    split; [by vm_compute|]. split; [vm_compute; lia|done]. }
  split_and!; [exact H1|exact H2|].
  destruct (truncated_packet_abandoned [packet_A; packet_B]
              (take 20 (wire packet_C)) packet_C 20 H1 H2 H3) as [q [Hq _]].
  exists q. exact Hq.
Defined.

(** ** From the packets on the wire to the rows of the CSV files *)

Lemma on_channel_decoded ch (l : list raw_packet) :
  on_channel ch (decoded <$> l)
  = decoded <$> filter (λ p, raw_channel p = ch) l.
Proof.
  unfold on_channel. induction l as [|p l IH]; [done|].
  rewrite fmap_cons.
  destruct (decide (raw_channel p = ch)) as [Hc|Hc].
  - rewrite !filter_cons_True by done. rewrite fmap_cons. by rewrite IH.
  - rewrite !filter_cons_False by done. done.
Qed.

(** X8: a file made of waveform frames whose bodies are complete
    well-formed packets, exported for one channel without a limit, gives
    one row for each packet the device sent on that channel, in the order
    sent, holding its samples without the last four (all of them when there
    are fewer than four), and the run ends normally. *)
Theorem wire_file_single_channel
    (creatable : string → bool) (input_file : string)
    (fs : list (list byte * list raw_packet)) (channel_id max_waveforms : Z) :
  Forall wire_frame_ok fs →
  max_waveforms ≤ 0 →
  creatable (csv_name input_file channel_id) = true →
  let sent := filter (λ p, raw_channel p = channel_id) (concat (snd <$> fs)) in
  export_single_channel creatable input_file
    (Some (frames_bytes (wire_frames fs))) channel_id max_waveforms
  = Some (Finished
            (Z.of_nat (length sent),
             mkStream (Some (csv_name input_file channel_id))
               ((λ p, csv_row (trim_padding (raw_samples p))) <$> sent))).
Proof.
  intros Hfs HM Hcr sent.
  unfold export_single_channel, open_out. rewrite Hcr.
  rewrite bool_decide_false by done. f_equal.
  rewrite scan_replay. unfold wire_frames.
  rewrite stream_packets_wire by exact Hfs.
  unfold resume. simpl final_state.
  rewrite (replay_single_unlimited _ _ _ _ _
             (csv_name input_file channel_id)) by done.
  simpl. rewrite on_channel_decoded. fold sent.
  rewrite length_fmap. unfold csv_rows. rewrite <- list_fmap_compose. done.
Qed.

Lemma wire_file_single_channel_witness :
  Forall wire_frame_ok
    [(waveform_topic 44, [packet_A; packet_B]);
     (waveform_topic 24, [packet_C])]
  ∧ -1 ≤ 0
  ∧ always (csv_name "run.adr" 2) = true
  ∧ export_single_channel always "run.adr"
      (Some (frames_bytes (wire_frames
               [(waveform_topic 44, [packet_A; packet_B]);
                (waveform_topic 24, [packet_C])]))) 2 (-1)
    = Some (Finished
              (2, mkStream (Some "run_wf_ch2.csv")
                    ["10,20" +:+ newline; "5,6" +:+ newline])).
Proof.
  assert (Hp : Forall well_formed [packet_A; packet_B; packet_C])
    by (repeat constructor; simpl; lia).
  assert (H1 : Forall wire_frame_ok
                 [(waveform_topic 44, [packet_A; packet_B]);
                  (waveform_topic 24, [packet_C])]).
  { constructor; [|constructor; [|constructor]].
    - split; [apply header_okb_ok; by vm_compute|].
      split; [by vm_compute|].
      simpl. apply Forall_cons. split; [exact (Forall_inv Hp)|].
      apply Forall_cons. split; [exact (Forall_inv (Forall_inv_tail Hp))|].
      apply Forall_nil. done.
    - split; [apply header_okb_ok; by vm_compute|].
      split; [by vm_compute|].
      simpl. apply Forall_cons.
      split; [exact (Forall_inv (Forall_inv_tail (Forall_inv_tail Hp)))|].
      apply Forall_nil. done. }
  split; [exact H1|]. split; [lia|]. split; [reflexivity|].
  rewrite (wire_file_single_channel always "run.adr" _ 2 (-1) H1);
    [by vm_compute|lia|reflexivity].
Defined.

(** ** The two modes side by side *)

(** X9: without limits, all-channels mode leaves for every channel that is
    not excluded and on which a packet was decoded the very file and count
    that single-channel mode gives for that channel.  They differ for a
    channel without packets: single-channel mode creates an empty file,
    all-channels mode creates none. *)
Theorem modes_agree
    (creatable : string → bool) (input_file : string) (input : list byte)
    (ch max_waveforms max_per_channel exclude_channel : Z) :
  max_waveforms ≤ 0 → max_per_channel ≤ 0 → ch ≠ exclude_channel →
  creatable (csv_name input_file ch) = true →
  ∃ o_single o_all,
    export_single_channel creatable input_file (Some input) ch max_waveforms
    = Some o_single
    ∧ export_all_channels creatable input_file (Some input)
        max_per_channel exclude_channel = Some o_all
    ∧ (on_channel ch (final_state (stream_packets input)) ≠ [] →
       (final_state o_all).1 !! ch = Some (final_state o_single).2
       ∧ (final_state o_all).2 !! ch = Some (final_state o_single).1)
    ∧ (on_channel ch (final_state (stream_packets input)) = [] →
       (final_state o_all).1 !! ch = None
       ∧ (final_state o_all).2 !! ch = None
       ∧ final_state o_single
         = (0, mkStream (Some (csv_name input_file ch)) [])).
Proof.
  intros HM HL Hex Hcr.
  destruct (export_all_channels_view creatable input_file max_per_channel
              exclude_channel input) as (o_all & Ho & _ & _ & Hv).
  specialize (Hv ch). unfold view, view_after in Hv.
  exists (scan (single_packet ch max_waveforms) input
            (0, mkStream (Some (csv_name input_file ch)) [])), o_all.
  split.
  { unfold export_single_channel, open_out. rewrite Hcr.
    by rewrite bool_decide_false by done. }
  split; [done|].
  rewrite scan_replay. unfold resume.
  rewrite (replay_single_unlimited _ _ _ _ _ (csv_name input_file ch))
    by done.
  assert (Hfs : ∀ (o : outcome (list WaveformPacket)) (st : Z * ofstream),
             final_state (with_state o st) = st) by (by intros []).
  rewrite Hfs. simpl.
  set (m := on_channel ch (final_state (stream_packets input))) in *.
  assert (Hcap : capped max_per_channel m = m)
    by (unfold capped; by rewrite bool_decide_true).
  split.
  - intros Hne. rewrite bool_decide_true in Hv by done.
    injection Hv as -> ->. unfold sink_after. by rewrite Hcr, Hcap.
  - intros Hnil. rewrite bool_decide_false in Hv by (intros [_ ?]; done).
    injection Hv as -> ->. by rewrite Hnil.
Qed.

Lemma modes_agree_witness :
  -1 ≤ 0 ∧ -1 ≤ 0 ∧ 2 ≠ -1
  ∧ always (csv_name "run.adr" 2) = true
  ∧ ∃ o_single o_all,
    export_single_channel always "run.adr" (Some two_frames) 2 (-1)
    = Some o_single
    ∧ export_all_channels always "run.adr" (Some two_frames) (-1) (-1)
      = Some o_all
    ∧ (on_channel 2 (final_state (stream_packets two_frames)) ≠ [] →
       (final_state o_all).1 !! 2 = Some (final_state o_single).2
       ∧ (final_state o_all).2 !! 2 = Some (final_state o_single).1)
    ∧ (on_channel 2 (final_state (stream_packets two_frames)) = [] →
       (final_state o_all).1 !! 2 = None
       ∧ (final_state o_all).2 !! 2 = None
       ∧ final_state o_single
         = (0, mkStream (Some (csv_name "run.adr" 2)) [])).
Proof.
  split; [lia|]. split; [lia|]. split; [lia|]. split; [reflexivity|].
  apply (modes_agree always "run.adr" two_frames 2 (-1) (-1) (-1));
    [lia|lia|lia|reflexivity].
Defined.

(** X10: an excluded channel outside 0..255 excludes nothing, since no
    decoded channel equals it: all such values, -1 among them, give the
    same run, in which every decoded packet has the sink of its channel. *)
Theorem exclusion_out_of_range
    (creatable : string → bool) (input_file : string) (input : list byte)
    (max_per_channel exclude_channel exclude_channel' : Z) :
  ¬ (0 ≤ exclude_channel ≤ 255) → ¬ (0 ≤ exclude_channel' ≤ 255) →
  export_all_channels creatable input_file (Some input)
    max_per_channel exclude_channel
  = export_all_channels creatable input_file (Some input)
      max_per_channel exclude_channel'
  ∧ ∃ o, export_all_channels creatable input_file (Some input)
           max_per_channel exclude_channel = Some o
         ∧ ∀ pkt, pkt ∈ final_state (stream_packets input) →
             is_Some ((final_state o).1 !! channel pkt).
Proof.
  intros He He'.
  destruct (export_all_channels_view creatable input_file max_per_channel
              exclude_channel input) as (o & Ho & _ & Hend & Hv).
  destruct (export_all_channels_view creatable input_file max_per_channel
              exclude_channel' input) as (o' & Ho' & _ & Hend' & Hv').
  pose proof (stream_packets_decoded_ok input) as Hok.
  assert (Hrange : ∀ ch e, ¬ (0 ≤ e ≤ 255) →
    on_channel ch (final_state (stream_packets input)) ≠ [] → ch ≠ e).
  { intros ch e Hr Hne. apply on_channel_nonempty in Hne as (pkt & Hin & <-).
    rewrite Forall_forall in Hok. destruct (Hok pkt Hin) as [Hc _]. lia. }
  assert (Hsame : final_state o = final_state o').
  { destruct (final_state o) as [os cs], (final_state o') as [os' cs'].
    assert (Hview : ∀ ch, (os !! ch, cs !! ch) = (os' !! ch, cs' !! ch)).
    { intros ch. specialize (Hv ch). specialize (Hv' ch).
      unfold view in Hv, Hv'. simpl in Hv, Hv'. rewrite Hv, Hv'.
      unfold view_after.
      destruct (decide (on_channel ch (final_state (stream_packets input))
                        = [])) as [Hnil|Hne].
      - by rewrite !bool_decide_false by (intros [_ ?]; done).
      - by rewrite !bool_decide_true by (split; [by eapply Hrange|done]). }
    f_equal; apply map_eq; intros ch; specialize (Hview ch); congruence. }
  split.
  - rewrite Ho, Ho', Hend, Hend'. by rewrite Hsame.
  - exists o. split; [done|]. intros pkt Hin.
    specialize (Hv (channel pkt)). unfold view, view_after in Hv.
    assert (Hne : on_channel (channel pkt) (final_state (stream_packets input))
                  ≠ []) by (apply on_channel_nonempty; by exists pkt).
    rewrite bool_decide_true in Hv by (split; [by eapply Hrange|done]).
    injection Hv as -> _. done.
Qed.

Lemma exclusion_out_of_range_witness :
  ¬ (0 ≤ -1 ≤ 255) ∧ ¬ (0 ≤ 300 ≤ 255)
  ∧ export_all_channels always "run.adr" (Some two_frames) 1 (-1)
    = export_all_channels always "run.adr" (Some two_frames) 1 300.
Proof.
  assert (H1 : ¬ (0 ≤ -1 ≤ 255)) by lia.
  assert (H2 : ¬ (0 ≤ 300 ≤ 255)) by lia.
  split; [exact H1|]. split; [exact H2|].
  exact (proj1 (exclusion_out_of_range always "run.adr" two_frames 1 (-1) 300
                  H1 H2)).
Defined.

(** X11: in all-channels mode a sink and its counter come and go together,
    and the counter of a channel is the number of rows in its file.  The
    result of opening the file is never looked at: when the file of a
    channel cannot be created its packets are still counted, up to the cap,
    while nothing is written for them. *)
Theorem sinks_and_counters
    (creatable : string → bool) (input_file : string) (input : list byte)
    (max_per_channel exclude_channel : Z) :
  ∃ o outputs counts,
    export_all_channels creatable input_file (Some input)
      max_per_channel exclude_channel = Some o
    ∧ final_state o = (outputs, counts)
    ∧ ∀ ch,
        (outputs !! ch = None ↔ counts !! ch = None)
        ∧ ∀ f n, outputs !! ch = Some f → counts !! ch = Some n →
            0 < n
            ∧ (creatable (csv_name input_file ch) = true →
               opened f = Some (csv_name input_file ch)
               ∧ Z.of_nat (length (rows f)) = n)
            ∧ (creatable (csv_name input_file ch) = false →
               opened f = None ∧ rows f = []
               ∧ n = Z.of_nat (length (capped max_per_channel
                       (on_channel ch (final_state (stream_packets input)))))).
Proof.
  destruct (export_all_channels_view creatable input_file max_per_channel
              exclude_channel input) as (o & Ho & _ & _ & Hv).
  destruct (final_state o) as [outputs counts] eqn:Hfs.
  exists o, outputs, counts. split; [done|]. split; [done|].
  intros ch. specialize (Hv ch). unfold view, view_after in Hv. simpl in Hv.
  set (m := on_channel ch (final_state (stream_packets input))) in *.
  case_bool_decide as Hsel; injection Hv as Hf Hn;
    rewrite Hf, Hn; [|split; [done|by intros]].
  split; [split; done|].
  intros f n [= <-] [= <-].
  destruct Hsel as [_ Hne].
  assert (Hpos : 0 < Z.of_nat (length (capped max_per_channel m))).
  { rewrite length_capped. destruct m; [done|].
    case_bool_decide; simpl length; lia. }
  hnf in Hpos.
  split; [exact Hpos|].
  unfold sink_after. split; intros Hcr; rewrite Hcr; simpl.
  - split; [done|]. unfold csv_rows. by rewrite length_fmap.
  - done.
Qed.

(** ** Output file names *)

Lemma bytes_app (a b : string) : bytes (a +:+ b) = bytes a ++ bytes b.
Proof.
  unfold bytes, String.list_byte_of_string.
  induction a as [|c a IH]; [done|]. simpl. by rewrite IH.
Qed.

Lemma bytes_inj (a b : string) : bytes a = bytes b → a = b.
Proof.
  intros H. rewrite <- (String.string_of_list_byte_of_string a),
    <- (String.string_of_list_byte_of_string b).
  unfold bytes in H. by rewrite H.
Qed.

Lemma csv_name_inj input_file ch1 ch2 :
  csv_name input_file ch1 = csv_name input_file ch2 → ch1 = ch2.
Proof.
  unfold csv_name. intros H.
  apply (inj (String.app _)) in H. apply (inj (String.app _)) in H.
  apply (f_equal bytes) in H. rewrite !bytes_app in H.
  apply app_inv_tail in H. apply bytes_inj in H.
  by apply (inj pretty) in H.
Qed.

(** X12: no two channels are written to the same file: the names derived
    for different channels differ, so after any run of all-channels mode
    the open sinks of different channels have different paths. *)
Theorem sinks_have_distinct_files
    (creatable : string → bool) (input_file : string) (input : list byte)
    (max_per_channel exclude_channel : Z) :
  (∀ ch1 ch2, csv_name input_file ch1 = csv_name input_file ch2 → ch1 = ch2)
  ∧ ∃ o, export_all_channels creatable input_file (Some input)
           max_per_channel exclude_channel = Some o
         ∧ ∀ ch1 ch2 f1 f2 path,
             (final_state o).1 !! ch1 = Some f1 →
             (final_state o).1 !! ch2 = Some f2 →
             opened f1 = Some path → opened f2 = Some path → ch1 = ch2.
Proof.
  split; [apply csv_name_inj|].
  destruct (export_all_channels_view creatable input_file max_per_channel
              exclude_channel input) as (o & Ho & _ & _ & Hv).
  exists o. split; [done|].
  intros ch1 ch2 f1 f2 path H1 H2 Hp1 Hp2.
  pose proof (Hv ch1) as Hv1. pose proof (Hv ch2) as Hv2.
  unfold view, view_after in Hv1, Hv2. rewrite H1 in Hv1. rewrite H2 in Hv2.
  case_bool_decide; [|done]. case_bool_decide; [|done].
  injection Hv1 as -> _. injection Hv2 as -> _.
  unfold sink_after in Hp1, Hp2.
  destruct (creatable (csv_name input_file ch1)); [|done].
  destruct (creatable (csv_name input_file ch2)); [|done].
  simpl in Hp1, Hp2. apply (csv_name_inj input_file). congruence.
Qed.

Lemma starts_with_app needle hay rest :
  starts_with needle hay = true → starts_with needle (hay ++ rest) = true.
Proof.
  revert hay. induction needle as [|n needle IH]; intros [|h hay]; simpl;
    try done.
  intros H. apply andb_true_iff in H as [-> H]. simpl. by apply IH.
Qed.

Lemma starts_with_app_false needle hay rest :
  (length needle ≤ length hay)%nat →
  starts_with needle hay = false → starts_with needle (hay ++ rest) = false.
Proof.
  revert hay. induction needle as [|n needle IH]; intros [|h hay]; simpl;
    try done; try lia.
  intros Hlen H. apply andb_false_iff in H as [->|H]; [done|].
  rewrite IH by (done || lia). apply andb_false_r.
Qed.

Lemma starts_with_length needle hay :
  starts_with needle hay = true → (length needle ≤ length hay)%nat.
Proof.
  revert hay. induction needle as [|n needle IH]; intros [|h hay]; simpl;
    try done; try lia.
  intros H. apply andb_true_iff in H as [_ H]. apply IH in H. lia.
Qed.

Lemma find_Some_length hay needle i :
  find hay needle = Some i → (i + length needle ≤ length hay)%nat.
Proof.
  revert i. induction hay as [|h hay IH]; intros i; simpl.
  - destruct (starts_with needle []) eqn:E; [|done].
    intros [= <-]. apply starts_with_length in E. simpl in *. lia.
  - destruct (starts_with needle (h :: hay)) eqn:E.
    + intros [= <-]. apply starts_with_length in E. simpl in *. lia.
    + destruct (find hay needle) as [j|] eqn:Ej; [|done].
      intros [= <-]. specialize (IH j eq_refl). lia.
Qed.

Lemma find_app hay needle rest i :
  find hay needle = Some i → find (hay ++ rest) needle = Some i.
Proof.
  revert i. induction hay as [|h hay IH]; intros i.
  - simpl. destruct (starts_with needle []) eqn:E; [|done].
    intros [= <-]. destruct needle; [|done]. by destruct rest.
  - cbn [find app]. destruct (starts_with needle (h :: hay)) eqn:E.
    + intros [= <-].
      pose proof (starts_with_app needle (h :: hay) rest E) as Hs.
      simpl app in Hs. by rewrite Hs.
    + destruct (find hay needle) as [j|] eqn:Ej; [|done].
      intros [= <-].
      pose proof (find_Some_length _ _ _ Ej) as Hlen.
      assert (Hs : starts_with needle ((h :: hay) ++ rest) = false)
        by (apply starts_with_app_false; [simpl; lia|done]).
      simpl app in Hs. rewrite Hs.
      by rewrite (IH j eq_refl).
Qed.

(** X13: the output name is cut at the first [.adr] of the input name.
    For an input name [stem.adr] followed by anything, where [.adr] does
    not occur earlier, the file of channel [ch] is [stem_wf_ch<ch>.csv]; an
    input name without [.adr] is used whole. *)
Theorem csv_name_of_stem (stem rest : string) (ch : Z) :
  find (bytes (stem +:+ ".adr")) (bytes ".adr") = Some (length (bytes stem)) →
  base_name (stem +:+ ".adr" +:+ rest) = stem
  ∧ csv_name (stem +:+ ".adr" +:+ rest) ch
    = stem +:+ "_wf_ch" +:+ pretty ch +:+ ".csv"
  ∧ ∀ name, find (bytes name) (bytes ".adr") = None →
      csv_name name ch = name +:+ "_wf_ch" +:+ pretty ch +:+ ".csv".
Proof.
  intros Hfind.
  assert (Hbase : base_name (stem +:+ ".adr" +:+ rest) = stem).
  { unfold base_name.
    replace (bytes (stem +:+ ".adr" +:+ rest))
      with (bytes (stem +:+ ".adr") ++ bytes rest)
      by (by rewrite !bytes_app, <- app_assoc).
    rewrite (find_app _ _ _ _ Hfind).
    rewrite bytes_app, <- app_assoc, take_app_length.
    apply String.string_of_list_byte_of_string. }
  split; [done|]. split.
  - unfold csv_name. by rewrite Hbase.
  - intros name Hnone. unfold csv_name, base_name. by rewrite Hnone.
Qed.

Lemma csv_name_of_stem_witness :
  find (bytes ("data/run7" +:+ ".adr")) (bytes ".adr")
  = Some (length (bytes "data/run7"))
  ∧ csv_name ("data/run7" +:+ ".adr" +:+ ".bak") 12
    = "data/run7" +:+ "_wf_ch" +:+ pretty 12 +:+ ".csv".
Proof.
  assert (H : find (bytes ("data/run7" +:+ ".adr")) (bytes ".adr")
              = Some (length (bytes "data/run7"))) by (by vm_compute).
  split; [exact H|].
  exact (proj1 (proj2 (csv_name_of_stem "data/run7" ".bak" 12 H))).
Defined.

(** ** Reading back a declared size *)

Lemma digit_val_char (d : N) :
  (d < 10)%N →
  digit_val (Ascii.byte_of_ascii (pretty_N_char d)) = Some (Z.of_N d).
Proof.
  intros Hd.
  assert (d = 0 ∨ d = 1 ∨ d = 2 ∨ d = 3 ∨ d = 4 ∨ d = 5 ∨ d = 6 ∨ d = 7
          ∨ d = 8 ∨ d = 9)%N as Hcases by lia.
  repeat destruct Hcases as [->|Hcases]; try subst d; by vm_compute.
Qed.

Lemma bytes_String c s :
  bytes (String c s) = Ascii.byte_of_ascii c :: bytes s.
Proof. done. Qed.

Lemma digits_pretty_go (x : N) (s : string) (seen : bool) :
  digits (bytes (pretty_N_go x s)) 0 seen
  = digits (bytes s) (Z.of_N x) (seen || bool_decide (0 < x)%N).
Proof.
  revert s seen. induction (N.lt_wf_0 x) as [x _ IH]; intros s seen.
  destruct (decide (0 < x)%N) as [Hx|Hx].
  - rewrite pretty_N_go_step by done.
    rewrite IH by (by apply N.div_lt).
    rewrite bytes_String. cbn [digits].
    rewrite digit_val_char by (by apply N.mod_lt).
    rewrite bool_decide_true by done. rewrite orb_true_r.
    f_equal. pose proof (N.div_mod x 10). lia.
  - assert (x = 0%N) as -> by lia. rewrite pretty_N_go_0.
    rewrite bool_decide_false by lia. by rewrite orb_false_r.
Qed.

Lemma digits_pretty (n : Z) :
  0 ≤ n → digits (bytes (pretty n)) 0 false = Some n.
Proof.
  intros Hn. destruct n as [|p|p]; [done| |lia].
  change (pretty (Z.pos p)) with (pretty_N_go (N.pos p) "").
  rewrite digits_pretty_go. simpl. done.
Qed.

Lemma all_digits_pretty_go (x : N) (s : string) :
  Forall is_digit (bytes s) → Forall is_digit (bytes (pretty_N_go x s)).
Proof.
  revert s. induction (N.lt_wf_0 x) as [x _ IH]; intros s Hs.
  destruct (decide (0 < x)%N) as [Hx|Hx].
  - rewrite pretty_N_go_step by done.
    apply IH; [by apply N.div_lt|].
    rewrite bytes_String. constructor; [|done].
    assert (Hm : (x `mod` 10 < 10)%N) by (apply N.mod_lt; lia).
    pose proof (digit_val_char (x `mod` 10) Hm) as Hd.
    unfold digit_val in Hd. unfold is_digit.
    case_bool_decide; [done|discriminate].
  - assert (x = 0%N) as -> by lia. by rewrite pretty_N_go_0.
Qed.

Lemma all_digits_pretty (n : Z) : 0 ≤ n → Forall is_digit (bytes (pretty n)).
Proof.
  intros Hn. destruct n as [|p|p]; [|..|lia].
  - repeat constructor; by vm_compute.
  - change (pretty (Z.pos p)) with (pretty_N_go (N.pos p) "").
    apply all_digits_pretty_go. constructor.
Qed.

Lemma is_digit_not_special c :
  is_digit c → isspace c = false ∧ c ≠ "-"%byte ∧ c ≠ "+"%byte
               ∧ c ≠ "_"%byte ∧ c ≠ " "%byte ∧ c ≠ ","%byte ∧ c ≠ x0a.
Proof.
  unfold is_digit. intros Hc.
  assert (Hsp : ∀ c' : byte, ¬ (48 ≤ byte_val c' ≤ 57) → c ≠ c')
    by (intros c' Hn ->; done).
  split_and!; try (apply Hsp; cbn; lia).
  unfold isspace. apply bool_decide_eq_false.
  rewrite !elem_of_cons, elem_of_nil.
  intros [->|[->|[->|[->|[->|[->|[]]]]]]]; cbn in Hc; lia.
Qed.

Lemma stoi_digits (s : list byte) (v : Z) :
  digits s 0 false = Some v → INT_MIN ≤ v ≤ INT_MAX → stoi s = inr v.
Proof.
  intros Hd Hv. destruct s as [|c s]; [done|].
  assert (Hc : is_digit c).
  { simpl in Hd. unfold digit_val in Hd. unfold is_digit.
    case_bool_decide; [done|discriminate]. }
  destruct (is_digit_not_special c Hc) as (Hsp & Hminus & Hplus & _).
  unfold stoi. cbn [skip_space]. rewrite Hsp.
  rewrite (bool_decide_false (c = "-"%byte)) by done.
  rewrite (bool_decide_false (c = "+"%byte)) by done.
  rewrite Hd. by rewrite bool_decide_true by done.
Qed.

Lemma rfind_app_Some a b needle i :
  rfind b needle = Some i → rfind (a ++ b) needle = Some (length a + i)%nat.
Proof.
  intros Hb. induction a as [|c a IH]; [done|].
  simpl. by rewrite IH.
Qed.

Lemma rfind_no_underscore hay :
  ("_"%byte ∉ hay) → rfind hay (bytes "_s") = None.
Proof.
  induction hay as [|c hay IH]; [done|].
  intros Hn. apply not_elem_of_cons in Hn as [Hc Hn].
  simpl. rewrite IH by done.
  by rewrite bool_decide_false by done.
Qed.

(** X14: a size written in decimal after [_s] is read back.  For any
    topic text [name] without a space, even one that itself contains [_s],
    and any [n] from 0 to [INT_MAX], the topic [name_s<n>] is taken apart at
    its last [_s] and [std::stoi] returns [n]; followed by a space and [n]
    bytes it is a complete frame. *)
Theorem declared_size_read_back (name body : list byte) (n : Z) :
  (" "%byte ∉ name) → 0 ≤ n ≤ INT_MAX → size body = n →
  let topic := name ++ bytes "_s" ++ bytes (pretty n) in
  rfind topic (bytes "_s") = Some (length name)
  ∧ stoi (drop (length name + 2) topic) = inr n
  ∧ frame_ok (topic, body).
Proof.
  intros Hname Hn Hbody topic.
  pose proof (all_digits_pretty n ltac:(lia)) as Hdig.
  assert (Hnot : ∀ c, c ∈ bytes (pretty n) → is_digit c)
    by (by apply Forall_forall).
  assert (Hr : rfind topic (bytes "_s") = Some (length name)).
  { unfold topic.
    rewrite (rfind_app_Some name _ _ 0); [f_equal; lia|].
    change (bytes "_s" ++ bytes (pretty n))
      with ("_"%byte :: "s"%byte :: bytes (pretty n)).
    cbn [rfind].
    rewrite (rfind_no_underscore (bytes (pretty n))); [done|].
    intros Hin. apply Hnot, is_digit_not_special in Hin.
    destruct Hin as (_ & _ & _ & Hu & _). by apply Hu. }
  assert (Hs : stoi (drop (length name + 2) topic) = inr n).
  { unfold topic. rewrite drop_app_add.
    change (drop 2 (bytes "_s" ++ bytes (pretty n))) with (bytes (pretty n)).
    apply stoi_digits; [apply digits_pretty; lia|unfold INT_MIN; lia]. }
  split; [done|]. split; [done|].
  unfold frame_ok, header_ok. simpl. rewrite Hbody.
  split_and!; [|lia|by exists (length name)].
  unfold topic. rewrite !not_elem_of_app. split; [done|].
  split; [by apply (bool_decide_unpack _)|].
  intros Hin. apply Hnot, is_digit_not_special in Hin.
  destruct Hin as (_ & _ & _ & _ & Hsp & _). by apply Hsp.
Qed.

Lemma declared_size_read_back_witness :
  (" "%byte ∉ bytes "status_s_v2") ∧ 0 ≤ 5 ≤ INT_MAX
  ∧ size (bytes "a _s9") = 5
  ∧ rfind (bytes "status_s_v2" ++ bytes "_s" ++ bytes (pretty 5)) (bytes "_s")
    = Some (length (bytes "status_s_v2"))
  ∧ stoi (drop (length (bytes "status_s_v2") + 2)
            (bytes "status_s_v2" ++ bytes "_s" ++ bytes (pretty 5)))
    = inr 5.
Proof.
  assert (H1 : " "%byte ∉ bytes "status_s_v2")
    by (apply (bool_decide_unpack _); by vm_compute).
  assert (H2 : 0 ≤ 5 ≤ INT_MAX) by (by vm_compute).
  assert (H3 : size (bytes "a _s9") = 5) by (by vm_compute).
  split; [exact H1|]. split; [exact H2|]. split; [exact H3|].
  pose proof (declared_size_read_back _ _ _ H1 H2 H3) as (Hr & Hs & _).
  split; [exact Hr|exact Hs].
Defined.

(** ** The text of a row *)

Lemma filter_comma_digits (l : list byte) :
  Forall is_digit l → filter (λ c, c = ","%byte) l = [].
Proof.
  induction 1 as [|c l Hc Hl IH]; [done|].
  rewrite filter_cons_False; [done|].
  apply is_digit_not_special in Hc.
  destruct Hc as (_ & _ & _ & _ & _ & Hcomma & _). done.
Qed.

Lemma joined_samples (samples : list Z) :
  Forall (λ s, 0 ≤ s) samples →
  let joined := bytes (String.concat "," (pretty <$> samples)) in
  Forall (λ c, is_digit c ∨ c = ","%byte) joined
  ∧ length (filter (λ c, c = ","%byte) joined) = (length samples - 1)%nat.
Proof.
  induction 1 as [|s l Hs Hl IH]; [by split|].
  pose proof (all_digits_pretty s Hs) as Hd.
  destruct l as [|s' l'].
  - simpl. split.
    + eapply Forall_impl; [exact Hd|]. by left.
    + by rewrite filter_comma_digits.
  - destruct IH as [IH1 IH2]. rewrite fmap_cons.
    change (String.concat "," (pretty s :: (pretty <$> (s' :: l'))))
      with (pretty s +:+ "," +:+ String.concat "," (pretty <$> (s' :: l'))).
    rewrite !bytes_app. split.
    + apply Forall_app. split; [eapply Forall_impl; [exact Hd|]; by left|].
      apply Forall_app. split; [|exact IH1].
      constructor; [by right|constructor].
    + rewrite !filter_app, !length_app, IH2, filter_comma_digits by done.
      simpl. lia.
Qed.

(** X15: every row is one line of text.  For samples that are not
    negative, as decoded samples are, the row is their decimal digits
    separated by exactly one comma less than there are samples, then a
    single line feed; a packet left without samples after trimming gives an
    empty line. *)
Theorem csv_row_one_line (samples : list Z) :
  Forall (λ s, 0 ≤ s) samples →
  ∃ text, bytes (csv_row samples) = text ++ [x0a]
          ∧ Forall (λ c, is_digit c ∨ c = ","%byte) text
          ∧ (x0a ∉ text)
          ∧ length (filter (λ c, c = ","%byte) text)
            = (length samples - 1)%nat
          ∧ (samples = [] → text = []).
Proof.
  intros Hs. destruct (joined_samples samples Hs) as [H1 H2].
  exists (bytes (String.concat "," (pretty <$> samples))).
  split; [unfold csv_row; by rewrite bytes_app|].
  split; [done|]. split; [|split; [done|by intros ->]].
  intros Hin. rewrite Forall_forall in H1.
  destruct (H1 _ Hin) as [Hd|?]; [|done].
  apply is_digit_not_special in Hd.
  destruct Hd as (_ & _ & _ & _ & _ & _ & Hlf). by apply Hlf.
Qed.

Lemma csv_row_one_line_witness :
  Forall (λ s, 0 ≤ s) [10; 20]
  ∧ ∃ text, bytes (csv_row [10; 20]) = text ++ [x0a]
            ∧ Forall (λ c, is_digit c ∨ c = ","%byte) text
            ∧ (x0a ∉ text)
            ∧ length (filter (λ c, c = ","%byte) text)
              = (length [10; 20] - 1)%nat
            ∧ ([10; 20] = [] → text = []).
Proof.
  assert (H : Forall (λ s, 0 ≤ s) [10; 20]) by (repeat constructor; lia).
  split; [exact H|]. exact (csv_row_one_line [10; 20] H).
Defined.

(** ** The values that reach the files *)

Lemma le_value_take_range (n : nat) (l : list byte) :
  0 ≤ le_value (take n l) < 256 ^ Z.of_nat n.
Proof.
  pose proof (le_value_range (take n l)) as Hr.
  split; [apply Hr|]. eapply Z.lt_le_trans; [apply Hr|].
  apply Z.pow_le_mono_r; [lia|]. rewrite length_take. lia.
Qed.

Lemma pairs_le_range n src : Forall (λ s, 0 ≤ s < 2 ^ 16) (pairs_le n src).
Proof.
  revert src. induction n as [|n IH]; intros src; simpl; constructor.
  - apply (le_value_take_range 2).
  - apply IH.
Qed.

Lemma read_true_in_range buffer pos pos' pkt :
  size buffer < 2 ^ 64 →
  read_waveform_packet buffer pos = ReadTrue pos' pkt → packet_in_range pkt.
Proof.
  intros Hsz Hread. unfold packet_in_range.
  apply read_true in Hread
    as (_ & _ & _ & Hc & -> & -> & _ & -> & ->); [|done].
  split; [apply (le_value_take_range 8)|].
  split; [apply (le_value_take_range 1)|].
  split; [done|].
  split; [apply (le_value_take_range 1)|].
  unfold trim_padding. rewrite length_pairs_le.
  case_bool_decide as H4.
  - rewrite bool_decide_true by lia. split.
    + apply Forall_take, pairs_le_range.
    + rewrite length_take, length_pairs_le. lia.
  - rewrite bool_decide_false by lia. split.
    + apply pairs_le_range.
    + rewrite length_pairs_le. lia.
Qed.

Section ReadInvariant.
Context {St : Type}.
Variable on_packet : WaveformPacket → St → St * bool.
Variable P : St → Prop.
Hypothesis step :
  ∀ pkt st, packet_in_range pkt → P st → P (on_packet pkt st).1.

Lemma demux_in_range fuel buffer pos st :
  size buffer < 2 ^ 64 → P st →
  match demux_loop on_packet fuel buffer pos st with
  | inl (_, st') => P st'
  | inr o => P (final_state o)
  end.
Proof.
  intros Hsz. revert pos st.
  induction fuel as [|fuel IH]; intros pos st HP; simpl; [done|].
  case_bool_decide; [|done].
  destruct (read_waveform_packet buffer pos) as [pos' pkt|pos'|] eqn:E;
    [|done..].
  apply read_true_in_range in E; [|done].
  pose proof (step pkt st E HP) as HP'.
  destruct (on_packet pkt st) as [st' []]; [done|]. by apply IH.
Qed.

Lemma scan_loop_in_range fuel input topic st :
  P st → P (final_state (scan_loop on_packet fuel input topic st)).
Proof.
  revert input topic st.
  induction fuel as [|fuel IH]; intros input topic st HP; [done|].
  destruct input as [|c input]; cbn [scan_loop]; [done|].
  case_bool_decide; [by apply IH|].
  destruct (rfind topic (bytes "_s")) as [size_pos|]; [|by apply IH].
  destruct (stoi _) as [e|msg_size] eqn:Es; [done|].
  case_bool_decide; [done|].
  case_bool_decide; [done|].
  case_bool_decide; [|by apply IH].
  set (buffer := take (Z.to_nat msg_size) input).
  assert (Hb : size buffer < 2 ^ 64).
  { apply stoi_range in Es. unfold size, buffer, INT_MAX in *.
    rewrite length_take. lia. }
  pose proof (demux_in_range (S (length buffer)) buffer 0 st Hb HP) as Hd.
  destruct (demux_loop _ _ _ _ _) as [[p st']|o]; [by apply IH|done].
Qed.
End ReadInvariant.

(** X17: whatever the file holds, every packet handed to the per-packet
    block of a driver has fields of the width of their types, samples
    between 0 and 65535, and [sample_count - 4] of them, or all
    [sample_count] when that is below 4.  So every row of single-channel
    mode holds only such values, however the run ends. *)
Theorem exported_values_in_range
    (creatable : string → bool) (input_file : string) (input : list byte)
    (channel_id max_waveforms : Z) :
  Forall packet_in_range (final_state (stream_packets input))
  ∧ ∀ o, export_single_channel creatable input_file (Some input)
           channel_id max_waveforms = Some o →
         ∃ written,
           rows (final_state o).2 = csv_rows written
           ∧ Forall (λ pkt, packet_in_range pkt ∧ channel pkt = channel_id)
                    written.
Proof.
  split.
  - apply (scan_loop_in_range record_packet (Forall packet_in_range));
      [|done].
    intros pkt acc Hpkt Hacc. simpl. apply Forall_app.
    by split; [|constructor].
  - intros o. unfold export_single_channel.
    case_bool_decide; [done|]. intros [= <-].
    apply (scan_loop_in_range _
             (λ st, ∃ written, rows st.2 = csv_rows written
                ∧ Forall (λ pkt, packet_in_range pkt
                                 ∧ channel pkt = channel_id) written)).
    + intros pkt [exported out] Hpkt (written & Hrows & Hw).
      simpl in Hrows.
      unfold single_packet. case_bool_decide as Hch; [|by exists written].
      simpl. unfold write_samples_csv.
      destruct (opened out); simpl.
      * exists (written ++ [pkt]). split.
        -- unfold csv_rows in *. by rewrite fmap_app, Hrows.
        -- apply Forall_app. split; [done|]. by constructor.
      * by exists written.
    + exists []. split; [|constructor]. unfold open_out. done.
Qed.

(** * Whole files, from the packets sent to the rows written *)

Lemma described_frames_ok items : described items → Forall frame_ok (fst <$> items).
Proof.
  intros H. apply Forall_fmap. eapply Forall_impl; [exact H|].
  by intros x [Hf _].
Qed.

(** The frames of a described file hand the per-packet block exactly the
    packets sent, in order, until it leaves through [goto done]. *)
Lemma frames_run_described {St}
    (on_packet : WaveformPacket → St → St * bool) items (st : St) :
  described items →
  frames_run on_packet (fst <$> items) st
  = let '(st', stop) :=
      replay on_packet (decoded <$> concat (snd <$> items)) st in
    if stop then inr (Finished st') else inl st'.
Proof.
  intros Hd. revert st.
  induction Hd as [|[[t b] ps] items [Hf Hp] Hd IH]; intros st; [done|].
  rewrite !fmap_cons. cbn [fst snd concat frames_run].
  rewrite fmap_app, replay_app.
  unfold frame_step. simpl in Hf, Hp. unfold is_waveform_topic in Hp.
  case_bool_decide as Hw.
  - destruct Hp as [-> Hwf].
    assert (Hsz : size (concat (wire <$> ps)) < 2 ^ 64).
    { destruct Hf as (_ & _ & p & _ & Hs). simpl in Hs.
      apply stoi_range in Hs. unfold INT_MAX in Hs. lia. }
    pose proof (length_wire_body ps) as Hlen.
    rewrite (demux_wire on_packet ps [] _ st Hwf Hsz) by (simpl; lia).
    cbn [resume_body].
    destruct (replay on_packet (decoded <$> ps) st) as [st' []]; [done|].
    apply IH.
  - subst ps. simpl. apply IH.
Qed.

Lemma scan_described {St}
    (on_packet : WaveformPacket → St → St * bool) items rest (st : St) :
  described items →
  scan on_packet (file_of items ++ rest) st
  = let '(st', stop) :=
      replay on_packet (decoded <$> concat (snd <$> items)) st in
    if stop then Finished st' else scan on_packet rest st'.
Proof.
  intros Hd. unfold file_of.
  rewrite scan_frames_run by (by apply described_frames_ok).
  rewrite frames_run_described by done.
  by destruct (replay on_packet _ st) as [st' []].
Qed.

Lemma stream_packets_described items :
  described items →
  stream_packets (file_of items)
  = Finished (decoded <$> concat (snd <$> items)).
Proof.
  intros Hd. unfold stream_packets.
  rewrite <- (app_nil_r (file_of items)).
  rewrite scan_described by done. by rewrite replay_record.
Qed.

Lemma csv_rows_decoded (l : list raw_packet) :
  csv_rows (decoded <$> l) = row_of <$> l.
Proof. unfold csv_rows. by rewrite <- list_fmap_compose. Qed.

(** C4: take a file of complete frames, in which the waveform frames hold
    the well-formed packets the device sent and the other frames anything.
    With a positive limit [M], single-channel mode ends normally having
    written one row for each of the first [M] packets sent on the target
    channel, or for all of them when fewer were sent, so that it reports
    [min M] of their number.  As soon as [M] are written the run is over:
    whatever follows these frames in the file, further frames or bytes
    that no run could get through, is never looked at. *)
Theorem single_channel_limit
    (creatable : string → bool) (input_file : string)
    (items : list ((list byte * list byte) * list raw_packet))
    (rest : list byte) (channel_id max_waveforms : Z) :
  0 < max_waveforms →
  creatable (csv_name input_file channel_id) = true →
  described items →
  let sent := sent_on channel_id items in
  let written := take (Z.to_nat max_waveforms) sent in
  export_single_channel creatable input_file (Some (file_of items))
    channel_id max_waveforms
  = Some (Finished
            (Z.min max_waveforms (Z.of_nat (length sent)),
             mkStream (Some (csv_name input_file channel_id))
                      (row_of <$> written)))
  ∧ Z.of_nat (length (row_of <$> written))
    = Z.min max_waveforms (Z.of_nat (length sent))
  ∧ (max_waveforms ≤ Z.of_nat (length sent) →
     export_single_channel creatable input_file
       (Some (file_of items ++ rest)) channel_id max_waveforms
     = Some (Finished
               (max_waveforms,
                mkStream (Some (csv_name input_file channel_id))
                         (row_of <$> written)))).
Proof.
  intros HM Hcr Hd sent written.
  assert (Hrun : ∀ tail,
    scan (single_packet channel_id max_waveforms) (file_of items ++ tail)
      (0, mkStream (Some (csv_name input_file channel_id)) [])
    = if bool_decide (max_waveforms ≤ Z.of_nat (length sent))
      then Finished (Z.min max_waveforms (Z.of_nat (length sent)),
                     mkStream (Some (csv_name input_file channel_id))
                              (row_of <$> written))
      else scan (single_packet channel_id max_waveforms) tail
             (Z.min max_waveforms (Z.of_nat (length sent)),
              mkStream (Some (csv_name input_file channel_id))
                       (row_of <$> written))).
  { intros tail. rewrite scan_described by done.
    rewrite (replay_single _ _ _ _ _ (csv_name input_file channel_id))
      by done.
    rewrite Z.sub_0_r, on_channel_decoded. fold (sent_on channel_id items).
    fold sent. rewrite <- fmap_take. fold written.
    rewrite csv_rows_decoded, !length_fmap. simpl rows. simpl app.
    assert (Hlen : 0 + Z.of_nat (length written)
                   = Z.min max_waveforms (Z.of_nat (length sent)))
      by (unfold written; rewrite length_take; lia).
    rewrite Hlen.
    destruct (bool_decide (Z.to_nat max_waveforms ≤ length sent)%nat) eqn:Hk.
    - apply bool_decide_eq_true in Hk. by rewrite bool_decide_true by lia.
    - apply bool_decide_eq_false in Hk. by rewrite bool_decide_false by lia. }
  unfold export_single_channel, open_out. rewrite Hcr.
  rewrite bool_decide_false by done.
  split_and!.
  - f_equal. rewrite <- (app_nil_r (file_of items)). rewrite Hrun.
    case_bool_decide; [done|]. apply scan_nil.
  - rewrite length_fmap. unfold written. rewrite length_take. lia.
  - intros Hfull. f_equal. rewrite Hrun.
    rewrite bool_decide_true by done. do 2 f_equal. lia.
Qed.

Lemma described_mixed_items : described mixed_items.
Proof.
  assert (Hp : Forall well_formed [packet_A; packet_B; packet_C])
    by (repeat constructor; simpl; lia).
  unfold described, mixed_items.
  constructor; [|constructor; [|constructor; [|constructor]]].
  - split; [apply header_okb_ok; by vm_compute|]. done.
  - split; [apply header_okb_ok; by vm_compute|].
    change (is_waveform_topic _) with true. cbn iota. split; [|exact Hp].
    by vm_compute.
  - split; [apply header_okb_ok; by vm_compute|].
    change (is_waveform_topic _) with true. cbn iota. split; [|exact Hp].
    by vm_compute.
Qed.

Lemma single_channel_limit_witness :
  0 < 3
  ∧ always (csv_name "run.adr" 2) = true
  ∧ described mixed_items
  ∧ export_single_channel always "run.adr" (Some (file_of mixed_items)) 2 3
    = Some (Finished (3, mkStream (Some "run_wf_ch2.csv")
              ["10,20" +:+ newline; "5,6" +:+ newline; "10,20" +:+ newline]))
  ∧ export_single_channel always "run.adr" (Some (file_of mixed_items)) 2 9
    = Some (Finished (4, mkStream (Some "run_wf_ch2.csv")
              ["10,20" +:+ newline; "5,6" +:+ newline;
               "10,20" +:+ newline; "5,6" +:+ newline]))
  ∧ export_single_channel always "run.adr"
      (Some (file_of mixed_items ++ bytes "x_s ")) 2 3
    = Some (Finished (3, mkStream (Some "run_wf_ch2.csv")
              ["10,20" +:+ newline; "5,6" +:+ newline; "10,20" +:+ newline])).
Proof.
  assert (H1 : 0 < 3) by lia.
  assert (H1' : 0 < 9) by lia.
  assert (H2 : always (csv_name "run.adr" 2) = true) by reflexivity.
  pose proof described_mixed_items as H3.
  split; [exact H1|]. split; [exact H2|]. split; [exact H3|].
  split; [|split].
  - rewrite (proj1 (single_channel_limit always "run.adr" mixed_items []
                      2 3 H1 H2 H3)).
    by vm_compute.
  - rewrite (proj1 (single_channel_limit always "run.adr" mixed_items []
                      2 9 H1' H2 H3)).
    by vm_compute.
  - rewrite (proj2 (proj2 (single_channel_limit always "run.adr" mixed_items
                             (bytes "x_s ") 2 3 H1 H2 H3)));
      [by vm_compute|by vm_compute].
Defined.

(** ** [main] on whole files *)

(** X16: answering 0 to the prompt for the number of waveforms exports
    everything, from the packets sent to the rows written.  On a file of
    complete frames whose waveform frames hold the well-formed packets the
    device sent, [main] with a channel other than -1 writes one row for
    every packet sent on that channel, in the order sent, and reports
    their number; with channel -1 it ends normally leaving, for every
    channel other than the excluded one on which a packet was sent, a
    counter equal to the number of packets sent on it and a file with one
    row for each of them in order (an unopened stream when the file cannot
    be created), and nothing for the excluded channel or for a channel on
    which nothing was sent. *)
Theorem main_zero_means_all
    (creatable : string → bool) (filename : string)
    (items : list ((list byte * list byte) * list raw_packet))
    (exclude : Z) :
  described items →
  (∀ channel,
     channel ≠ -1 →
     creatable (csv_name filename channel) = true →
     main creatable filename (Some (file_of items)) channel 0 exclude
     = SingleRun (Some (Finished
         (Z.of_nat (length (sent_on channel items)),
          mkStream (Some (csv_name filename channel))
                   (row_of <$> sent_on channel items)))))
  ∧ ∃ outputs counts,
      main creatable filename (Some (file_of items)) (-1) 0 exclude
      = AllRun (Some (Finished (outputs, counts)))
      ∧ ∀ ch,
          (ch = exclude ∨ sent_on ch items = [] →
           outputs !! ch = None ∧ counts !! ch = None)
          ∧ (ch ≠ exclude → sent_on ch items ≠ [] →
             counts !! ch = Some (Z.of_nat (length (sent_on ch items)))
             ∧ outputs !! ch
               = Some (if creatable (csv_name filename ch)
                       then mkStream (Some (csv_name filename ch))
                                     (row_of <$> sent_on ch items)
                       else mkStream None [])).
Proof.
  intros Hd. split.
  - intros channel Hch Hcr. unfold main.
    rewrite bool_decide_false by done. rewrite bool_decide_true by done.
    unfold export_single_channel, open_out. rewrite Hcr.
    rewrite bool_decide_false by done. do 2 f_equal.
    rewrite <- (app_nil_r (file_of items)).
    rewrite scan_described by done.
    rewrite (replay_single_unlimited _ _ _ _ _ (csv_name filename channel))
      by done.
    rewrite on_channel_decoded. fold (sent_on channel items).
    by rewrite csv_rows_decoded, length_fmap.
  - unfold main. rewrite !bool_decide_true by done.
    destruct (export_all_channels_view creatable filename (-1) exclude
                (file_of items)) as (o & Ho & _ & Hw & Hv).
    rewrite stream_packets_described in Hw, Hv by done.
    simpl in Hw. destruct (final_state o) as [outputs counts] eqn:Hfs.
    exists outputs, counts. rewrite Ho, Hw. split; [done|].
    intros ch. specialize (Hv ch). unfold view, view_after in Hv.
    simpl in Hv. rewrite on_channel_decoded in Hv.
    fold (sent_on ch items) in Hv.
    unfold sink_after, capped in Hv.
    rewrite (bool_decide_true (-1 ≤ 0)) in Hv by done.
    rewrite csv_rows_decoded, length_fmap in Hv.
    case_bool_decide as Hc.
    + destruct Hc as [Hne Hs]. injection Hv as Ho' Hc'. split.
      * intros [He|He]; [done|]. rewrite He in Hs. done.
      * done.
    + injection Hv as Ho' Hc'. split; [done|].
      intros Hne Hs. exfalso. apply Hc. split; [done|].
      by destruct (sent_on ch items).
Qed.

Lemma main_zero_means_all_witness :
  described mixed_items
  ∧ main always "run.adr" (Some (file_of mixed_items)) 2 0 7
    = SingleRun (Some (Finished (4, mkStream (Some "run_wf_ch2.csv")
        ["10,20" +:+ newline; "5,6" +:+ newline;
         "10,20" +:+ newline; "5,6" +:+ newline])))
  ∧ ∃ outputs counts,
      main always "run.adr" (Some (file_of mixed_items)) (-1) 0 3
      = AllRun (Some (Finished (outputs, counts)))
      ∧ counts !! 2 = Some 4
      ∧ outputs !! 2
        = Some (mkStream (Some "run_wf_ch2.csv")
            ["10,20" +:+ newline; "5,6" +:+ newline;
             "10,20" +:+ newline; "5,6" +:+ newline])
      ∧ outputs !! 3 = None ∧ counts !! 3 = None
      ∧ outputs !! 4 = None ∧ counts !! 4 = None.
Proof.
  pose proof described_mixed_items as Hd.
  destruct (main_zero_means_all always "run.adr" mixed_items 3 Hd)
    as [Hone (outputs & counts & Hrun & Hall)].
  split; [exact Hd|]. split.
  - pose proof (main_zero_means_all always "run.adr" mixed_items 7 Hd)
      as [Hone7 _].
    rewrite (Hone7 2) by done. by vm_compute.
  - exists outputs, counts. split; [exact Hrun|].
    destruct (Hall 2) as [_ H2]. destruct (Hall 3) as [H3 _].
    destruct (Hall 4) as [H4 _].
    destruct H2 as [Hc2 Ho2]; [done|by vm_compute|].
    destruct H3 as [Ho3 Hc3]; [by left|].
    destruct H4 as [Ho4 Hc4]; [right; by vm_compute|].
    split; [rewrite Hc2; by vm_compute|].
    split; [rewrite Ho2; by vm_compute|].
    done.
Defined.
